(** * The AI response orchestration layer of the study assistant

    A shallow embedding of [lib/openai.ts] (class [AIService] and
    [createAIService]) and of [store/openai.ts] ([setApiKey]), together with
    the properties its specification states about them.

    JavaScript strings are sequences of UTF-16 code units; values coming out
    of [JSON.parse] are modelled by [JSValue]; the effects of the service
    (requests sent, chunks handed to [onChunk], lines written with
    [console.error]) are recorded in a trace that is threaded through a small
    state-and-exception monad. *)

From Stdlib Require Import List String Ascii NArith ZArith Bool Arith Lia.
From Stdlib Require Import PrimFloat Uint63 DecimalString.
From Equations Require Import Equations.
Import ListNotations.

Set Default Proof Using "Type".
Set Warnings "-register-all,-abstract-large-number".

(* ===================================================================== *)
(** ** JavaScript strings *)
(* ===================================================================== *)

(** A UTF-16 code unit. *)
Definition char16 := N.

Definition jsstring := list char16.

(** A string literal of the source, given here as a Rocq string. *)
Definition lit (s : string) : jsstring :=
  map N_of_ascii (list_ascii_of_string s).

(** A literal in which the apostrophe stands for the double quote, for the
    JSON texts of the examples. *)
Definition dq (s : string) : jsstring :=
  map (fun c => if (c =? 39)%N then 34%N else c) (lit s).

(** [a === b] on strings. *)
Fixpoint str_eqb (a b : jsstring) : bool :=
  match a, b with
  | [], [] => true
  | c :: a', d :: b' => (c =? d)%N && str_eqb a' b'
  | _, _ => false
  end.

(** [s.startsWith(prefix)]. *)
Fixpoint startsWith (s prefix : jsstring) {struct prefix} : bool :=
  match prefix, s with
  | [], _ => true
  | p :: prefix', c :: s' => (c =? p)%N && startsWith s' prefix'
  | _ :: _, [] => false
  end.

(** [s.slice(n)] for a non-negative [n]. *)
Definition slice (n : nat) (s : jsstring) : jsstring := skipn n s.

(** [s.slice(0, n)] for a non-negative [n]. *)
Definition slice_to (n : nat) (s : jsstring) : jsstring := firstn n s.

(** [s.split(sep)] for a separator of one code unit: the result is never
    empty, and a string without separator is returned as its only piece. *)
Fixpoint split_on (sep : char16) (s : jsstring) : list jsstring :=
  match s with
  | [] => [[]]
  | c :: s' =>
      if (c =? sep)%N then [] :: split_on sep s'
      else match split_on sep s' with
           | [] => [[c]]
           | piece :: pieces => (c :: piece) :: pieces
           end
  end.

(** [xs.pop()]: the last element (if any) and the array that is left. *)
Definition pop {A : Type} (xs : list A) : option A * list A :=
  match rev xs with
  | [] => (None, [])
  | x :: front => (Some x, rev front)
  end.

(** The line feed ['\n']. *)
Definition LF : char16 := 10%N.

(** White space and line terminators, the code units [String.prototype.trim]
    strips: TAB, LF, VT, FF, CR, SP, NBSP, the Unicode space separators, LS, PS
    and the byte order mark. *)
Definition is_white_space (c : char16) : bool :=
  ((9 <=? c) && (c <=? 13) || (c =? 32) || (c =? 160) || (c =? 5760)
   || (8192 <=? c) && (c <=? 8202) || (c =? 8232) || (c =? 8233)
   || (c =? 8239) || (c =? 8287) || (c =? 12288) || (c =? 65279))%N.

Fixpoint trimStart (s : jsstring) : jsstring :=
  match s with
  | [] => []
  | c :: s' => if is_white_space c then trimStart s' else s
  end.

Definition trimEnd (s : jsstring) : jsstring := rev (trimStart (rev s)).

(** [s.trim()]. *)
Definition trim (s : jsstring) : jsstring := trimEnd (trimStart s).

(** Decimal digits of a non-negative integer, as a template literal prints it. *)
Definition decimal (n : N) : jsstring :=
  lit (NilEmpty.string_of_uint (N.to_uint n)).

(** [pieces.join(sep)] on an array of strings. *)
Fixpoint join (sep : jsstring) (pieces : list jsstring) : jsstring :=
  match pieces with
  | [] => []
  | [p] => p
  | p :: rest => p ++ sep ++ join sep rest
  end.

(* ===================================================================== *)
(** ** JavaScript values *)
(* ===================================================================== *)

(** The values [JSON.parse] builds, and [undefined].  The fields of an object
    are kept as an association list; a property is read from its first
    entry. *)
Inductive JSValue : Type :=
| JUndefined
| JNull
| JBool (b : bool)
| JNum (x : float)
| JStr (s : jsstring)
| JArr (items : list JSValue)
| JObj (fields : list (jsstring * JSValue)).

(** ToBoolean: [undefined], [null], [false], [0], [-0], [NaN] and [""] are
    falsy, everything else is truthy. *)
Definition truthy (v : JSValue) : bool :=
  match v with
  | JUndefined | JNull => false
  | JBool b => b
  | JNum x => negb (PrimFloat.eqb x 0%float) && PrimFloat.eqb x x
  | JStr s => match s with [] => false | _ :: _ => true end
  | JArr _ | JObj _ => true
  end.

(** [a || b]. *)
Definition js_or (a b : JSValue) : JSValue := if truthy a then a else b.

Definition own_property (fields : list (jsstring * JSValue)) (name : jsstring)
  : JSValue :=
  match find (fun kv => str_eqb (fst kv) name) fields with
  | Some kv => snd kv
  | None => JUndefined
  end.

(** [v.name], for a name that no built-in prototype defines (the service
    reads [choices], [delta], [content], [message], [error] and [data]):
    [None] is the TypeError of reading a property of [undefined] or [null]. *)
Definition get (v : JSValue) (name : jsstring) : option JSValue :=
  match v with
  | JUndefined | JNull => None
  | JObj fields => Some (own_property fields name)
  | JBool _ | JNum _ | JStr _ | JArr _ => Some JUndefined
  end.

(** [v[0]]. *)
Definition get0 (v : JSValue) : option JSValue :=
  match v with
  | JUndefined | JNull => None
  | JArr items => Some (hd JUndefined items)
  | JStr s => Some (match s with [] => JUndefined | c :: _ => JStr [c] end)
  | JObj fields => Some (own_property fields (lit "0"))
  | JBool _ | JNum _ => Some JUndefined
  end.

(** [v?.name]. *)
Definition get_opt (v : JSValue) (name : jsstring) : JSValue :=
  match get v name with
  | Some w => w
  | None => JUndefined
  end.

(* ===================================================================== *)
(** ** A JSON reader for the examples *)
(* ===================================================================== *)

(** [JSON.parse] is a built-in of the platform; the service is modelled over
    an arbitrary [JSON_parse] (see the section below).  The closed examples
    instantiate it with [parse_json], a reader of the JSON documents whose
    numbers are integers of at most 15 digits and whose strings use only the
    two-character escapes.  On such documents it returns what [JSON.parse]
    returns; a frame that is not JSON at all is rejected by both. *)

Definition is_json_space (c : char16) : bool :=
  ((c =? 32) || (c =? 9) || (c =? 10) || (c =? 13))%N.

Fixpoint skip_ws (s : jsstring) : jsstring :=
  match s with
  | [] => []
  | c :: s' => if is_json_space c then skip_ws s' else s
  end.

Definition is_digit (c : char16) : bool := ((48 <=? c) && (c <=? 57))%N.

(** The digits at the head of [s]: their value, their number, and the rest. *)
Fixpoint read_digits (s : jsstring) (acc : N) (count : nat)
  : N * nat * jsstring :=
  match s with
  | c :: s' =>
      if is_digit c then read_digits s' (acc * 10 + (c - 48))%N (S count)
      else (acc, count, s)
  | [] => (acc, count, [])
  end.

Definition float_of_N (n : N) : float :=
  PrimFloat.of_uint63 (Uint63.of_Z (Z.of_N n)).

(** An integer literal without sign: no leading zero, at most 15 digits, and
    neither fraction nor exponent behind it. *)
Definition read_integer (s : jsstring) : option (float * jsstring) :=
  match read_digits s 0%N 0 with
  | (n, count, rest) =>
      let leading_zero :=
        match s with c :: _ => (c =? 48)%N && (1 <? count) | [] => false end in
      let continues :=
        match rest with
        | c :: _ => ((c =? 46) || (c =? 101) || (c =? 69))%N
        | [] => false
        end in
      if (1 <=? count) && (count <=? 15) && negb leading_zero && negb continues
      then Some (float_of_N n, rest)
      else None
  end.

Definition unescape (c : char16) : option char16 :=
  (if c =? 34 then Some 34        (* quote *)
   else if c =? 92 then Some 92   (* backslash *)
   else if c =? 47 then Some 47   (* slash *)
   else if c =? 98 then Some 8    (* b *)
   else if c =? 102 then Some 12  (* f *)
   else if c =? 110 then Some 10  (* n *)
   else if c =? 114 then Some 13  (* r *)
   else if c =? 116 then Some 9   (* t *)
   else None)%N.

(** The characters of a string literal after its opening quote, up to the
    closing one. *)
Fixpoint read_string (s : jsstring) : option (jsstring * jsstring) :=
  match s with
  | [] => None
  | c :: s' =>
      if (c =? 34)%N then Some ([], s')
      else if (c =? 92)%N then
        match s' with
        | e :: s'' =>
            match unescape e, read_string s'' with
            | Some u, Some (str, rest) => Some (u :: str, rest)
            | _, _ => None
            end
        | [] => None
        end
      else if (c <? 32)%N then None
      else match read_string s' with
           | Some (str, rest) => Some (c :: str, rest)
           | None => None
           end
  end.

(** A later member replaces an earlier one of the same name. *)
Definition add_member (k : jsstring) (v : JSValue)
  (fields : list (jsstring * JSValue)) : list (jsstring * JSValue) :=
  filter (fun kv => negb (str_eqb (fst kv) k)) fields ++ [(k, v)].

Definition read_keyword (word : string) (v : JSValue) (s : jsstring)
  : option (JSValue * jsstring) :=
  if startsWith s (lit word) then Some (v, skipn (String.length word) s)
  else None.

Fixpoint read_value (fuel : nat) (s : jsstring) {struct fuel}
  : option (JSValue * jsstring) :=
  match fuel with
  | 0 => None
  | S fuel' =>
      match skip_ws s with
      | [] => None
      | c :: rest =>
          if (c =? 123)%N then                       (* { *)
            match skip_ws rest with
            | d :: rest' =>
                if (d =? 125)%N then Some (JObj [], rest')
                else read_members fuel' (d :: rest') []
            | [] => None
            end
          else if (c =? 91)%N then                   (* [ *)
            match skip_ws rest with
            | d :: rest' =>
                if (d =? 93)%N then Some (JArr [], rest')
                else read_elements fuel' (d :: rest') []
            | [] => None
            end
          else if (c =? 34)%N then                   (* quote *)
            match read_string rest with
            | Some (str, rest') => Some (JStr str, rest')
            | None => None
            end
          else if (c =? 45)%N then                   (* - *)
            match read_integer rest with
            | Some (x, rest') => Some (JNum (- x)%float, rest')
            | None => None
            end
          else if is_digit c then
            match read_integer (c :: rest) with
            | Some (x, rest') => Some (JNum x, rest')
            | None => None
            end
          else if (c =? 116)%N then read_keyword "true" (JBool true) (c :: rest)
          else if (c =? 102)%N then read_keyword "false" (JBool false) (c :: rest)
          else if (c =? 110)%N then read_keyword "null" JNull (c :: rest)
          else None
      end
  end

with read_elements (fuel : nat) (s : jsstring) (acc : list JSValue)
  {struct fuel} : option (JSValue * jsstring) :=
  match fuel with
  | 0 => None
  | S fuel' =>
      match read_value fuel' s with
      | Some (v, rest) =>
          match skip_ws rest with
          | d :: rest' =>
              if (d =? 44)%N then read_elements fuel' rest' (acc ++ [v])
              else if (d =? 93)%N then Some (JArr (acc ++ [v]), rest')
              else None
          | [] => None
          end
      | None => None
      end
  end

with read_members (fuel : nat) (s : jsstring)
  (acc : list (jsstring * JSValue)) {struct fuel}
  : option (JSValue * jsstring) :=
  match fuel with
  | 0 => None
  | S fuel' =>
      match skip_ws s with
      | q :: rest =>
          if (q =? 34)%N then
            match read_string rest with
            | Some (k, rest1) =>
                match skip_ws rest1 with
                | colon :: rest2 =>
                    if (colon =? 58)%N then
                      match read_value fuel' rest2 with
                      | Some (v, rest3) =>
                          match skip_ws rest3 with
                          | d :: rest4 =>
                              if (d =? 44)%N
                              then read_members fuel' rest4 (add_member k v acc)
                              else if (d =? 125)%N
                              then Some (JObj (add_member k v acc), rest4)
                              else None
                          | [] => None
                          end
                      | None => None
                      end
                    else None
                | [] => None
                end
            | None => None
            end
          else None
      | [] => None
      end
  end.

Definition parse_json (text : jsstring) : option JSValue :=
  match read_value (2 * List.length text + 2) text with
  | Some (v, rest) => match skip_ws rest with [] => Some v | _ :: _ => None end
  | None => None
  end.


(* ===================================================================== *)
(** ** Regular expressions *)
(* ===================================================================== *)

Module Regex.

(** The fragment the credential pattern is written in. *)
Inductive t : Type :=
| Void
| Eps
| Class (member : char16 -> bool)
| Cat (a b : t)
| Alt (a b : t)
| Star (a : t).

(** A literal run of characters, as in [sk-]. *)
Fixpoint Lit (s : jsstring) : t :=
  match s with
  | [] => Eps
  | c :: s' => Cat (Class (N.eqb c)) (Lit s')
  end.

(** The quantifier [{n,}]. *)
Fixpoint AtLeast (n : nat) (a : t) : t :=
  match n with
  | 0 => Star a
  | S n' => Cat a (AtLeast n' a)
  end.

(** The language of an expression. *)
Inductive Matches : t -> jsstring -> Prop :=
| MEps : Matches Eps []
| MClass member c : member c = true -> Matches (Class member) [c]
| MCat a b s1 s2 : Matches a s1 -> Matches b s2 -> Matches (Cat a b) (s1 ++ s2)
| MAltL a b s : Matches a s -> Matches (Alt a b) s
| MAltR a b s : Matches b s -> Matches (Alt a b) s
| MStarNil a : Matches (Star a) []
| MStarApp a s1 s2 :
    Matches a s1 -> Matches (Star a) s2 -> Matches (Star a) (s1 ++ s2).

Fixpoint nullable (r : t) : bool :=
  match r with
  | Void => false
  | Eps => true
  | Class _ => false
  | Cat a b => nullable a && nullable b
  | Alt a b => nullable a || nullable b
  | Star _ => true
  end.

(** Brzozowski's derivative. *)
Fixpoint deriv (c : char16) (r : t) : t :=
  match r with
  | Void => Void
  | Eps => Void
  | Class member => if member c then Eps else Void
  | Cat a b =>
      if nullable a then Alt (Cat (deriv c a) b) (deriv c b)
      else Cat (deriv c a) b
  | Alt a b => Alt (deriv c a) (deriv c b)
  | Star a => Cat (deriv c a) (Star a)
  end.

(** [/^r$/.test(s)]: without the [m] flag the anchors stand for the two ends
    of the input, so the test asks whether [r] matches all of [s]. *)
Definition test_anchored (r : t) (s : jsstring) : bool :=
  nullable (fold_left (fun r' c => deriv c r') s r).

End Regex.

(** [\w]: a letter, a digit, or the underscore. *)
Definition is_word (c : char16) : bool :=
  ((65 <=? c) && (c <=? 90) || (97 <=? c) && (c <=? 122)
   || (48 <=? c) && (c <=? 57) || (c =? 95))%N.

(** [[\w-]]. *)
Definition is_word_or_hyphen (c : char16) : bool :=
  is_word c || (c =? 45)%N.

(** [/^(sk-|ds-)[\w-]{10,}$/], between its anchors. *)
Definition api_key_pattern : Regex.t :=
  Regex.Cat (Regex.Alt (Regex.Lit (lit "sk-")) (Regex.Lit (lit "ds-")))
            (Regex.AtLeast 10 (Regex.Class is_word_or_hyphen)).

(* ===================================================================== *)
(** ** Requests, responses, errors and the trace of effects *)
(* ===================================================================== *)

(** What both request paths post to [baseURL + "/chat/completions"]. *)
Record Request : Type := {
  req_url : jsstring;
  req_authorization : jsstring;
  req_model : jsstring;
  req_content : jsstring;       (* messages: [{ role: 'user', content }] *)
  req_temperature : float;
  req_max_tokens : N;
  req_stream : bool;            (* stream: true; absent when buffered *)
  req_timeout : N               (* milliseconds until the request is aborted *)
}.

Record AxiosResponse : Type := {
  status : N;
  data : JSValue
}.

Record AxiosError : Type := {
  code : option jsstring;
  response : option AxiosResponse;
  axios_message : jsstring
}.

(** What a [throw] carries: an error object with its [name] and [message],
    or an error for which [axios.isAxiosError] holds. *)
Inductive Thrown : Type :=
| JSError (name message : jsstring)
| AxiosFailure (e : AxiosError).

(** [new Error(message)]. *)
Definition new_Error (message : string) : Thrown :=
  JSError (lit "Error") (lit message).

(** The error of reading a property of [undefined] or [null]; the text of
    its message depends on the engine. *)
Definition TypeError : Thrown :=
  JSError (lit "TypeError") (lit "Cannot read properties of undefined").

(** The outcome of [axios.post]. *)
Inductive PostOutcome : Type :=
| PostResolves (r : AxiosResponse)
| PostRejects (e : Thrown).

(** One [reader.read()] on the body of a streamed response: a piece of text
    (the bytes read, decoded), or a failure of the read.  The end of the list
    is [done]. *)
Inductive ReadStep : Type :=
| ReadValue (text : jsstring)
| ReadRejects (e : Thrown).

Record FetchResponse : Type := {
  ok : bool;
  fetch_status : N;
  json_body : option JSValue;        (* response.json(), None when it rejects *)
  body_reader : option (list ReadStep)  (* response.body?.getReader() *)
}.

(** The outcome of [fetch]. *)
Inductive FetchOutcome : Type :=
| FetchResolves (r : FetchResponse)
| FetchRejects (e : Thrown).

(** The observable effects of the service, in the order they happen. *)
Inductive Event : Type :=
| Sent (r : Request)          (* a request went to the network *)
| Chunk (v : JSValue)         (* onChunk(v) *)
| ConsoleError.               (* console.error(...) *)

Definition Trace := list Event.

Definition requests (t : Trace) : list Request :=
  flat_map (fun e => match e with Sent r => [r] | _ => [] end) t.

Definition chunks_delivered (t : Trace) : list JSValue :=
  flat_map (fun e => match e with Chunk v => [v] | _ => [] end) t.

(** Computations that extend the trace and either return or throw. *)
Definition M (A : Type) : Type := Trace -> (Thrown + A) * Trace.

Definition ret {A} (x : A) : M A := fun t => (inr x, t).

Definition throw {A} (e : Thrown) : M A := fun t => (inl e, t).

Definition bind {A B} (m : M A) (k : A -> M B) : M B :=
  fun t =>
    match m t with
    | (inr x, t') => k x t'
    | (inl e, t') => (inl e, t')
    end.

(** [try { m } catch (error) { handler }]. *)
Definition try_catch {A} (m : M A) (handler : Thrown -> M A) : M A :=
  fun t =>
    match m t with
    | (inr x, t') => (inr x, t')
    | (inl e, t') => handler e t'
    end.

Definition emit (e : Event) : M unit := fun t => (inr tt, t ++ [e]).

Declare Scope js_scope.
Delimit Scope js_scope with js.
Notation "x <- m ;; k" := (bind m (fun x => k))
  (at level 61, m at next level, right associativity) : js_scope.
Notation "m ;; k" := (bind m (fun _ => k))
  (at level 61, right associativity) : js_scope.
Open Scope js_scope.

(** [for (const x of xs) body(x)]. *)
Fixpoint for_of {A} (xs : list A) (body : A -> M unit) : M unit :=
  match xs with
  | [] => ret tt
  | x :: rest => body x ;; for_of rest body
  end.

(** [await Promise.all(promises)] on promises made by [xs.map(...)]: every
    computation is started, in order, before any result is awaited, so all
    their requests are sent; the results keep the order of the array.  When
    several reject, [Promise.all] rejects with the one that rejects first in
    time, which the trace does not record: the model reports the one of
    lowest index, and the properties below only say of a failure that it is
    the rejection of one of the computations. *)
Fixpoint promise_all {A} (ms : list (M A)) : M (list A) :=
  match ms with
  | [] => ret []
  | m :: rest =>
      fun t =>
        match m t with
        | (r, t1) =>
            match promise_all rest t1 with
            | (rs, t2) =>
                (match r, rs with
                 | inl e, _ => inl e
                 | inr _, inl e => inl e
                 | inr x, inr xs => inr (x :: xs)
                 end, t2)
            end
        end
  end.

(* ===================================================================== *)
(** ** The service *)
(* ===================================================================== *)

Inductive Provider : Type := openai | deepseek.

Record APIConfig : Type := {
  baseURL : jsstring;
  apiKey : jsstring;
  model : jsstring
}.

(** An [AIService] object holds its configuration and nothing else. *)
Record AIService : Type := { config : APIConfig }.

Definition validateApiKey (key : jsstring) : bool :=
  Regex.test_anchored api_key_pattern key.

(** [new AIService(apiKey, provider)]; [provider] is [None] when the argument
    is left out, and then defaults to ['openai']. *)
Definition new_AIService (key : jsstring) (provider : option Provider)
  : M AIService :=
  let provider := match provider with Some p => p | None => openai end in
  if negb (validateApiKey key) then throw (new_Error "Invalid API key format")
  else
    ret {| config := {|
      baseURL := match provider with
                 | deepseek => lit "https://api.deepseek.com/v1"
                 | openai => lit "https://api.openai.com/v1"
                 end;
      apiKey := key;
      model := match provider with
               | deepseek => lit "deepseek-chat"
               | openai => lit "gpt-3.5-turbo"
               end |} |}.

Definition createAIService (key : jsstring) (provider : option Provider)
  : M AIService :=
  new_AIService key provider.

Definition chat_request (c : APIConfig) (prompt : jsstring) (streaming : bool)
  : Request :=
  {| req_url := baseURL c ++ lit "/chat/completions";
     req_authorization := lit "Bearer " ++ apiKey c;
     req_model := model c;
     req_content := prompt;
     req_temperature := 0x1.6666666666666p-1%float;   (* 0.7 *)
     req_max_tokens := 1000;
     req_stream := streaming;
     req_timeout := 30000 |}.

Definition NO_CONTENT : jsstring :=
  lit "No content to analyze. Please provide input.".

Definition SUMMARY_PROMPT : jsstring :=
  lit "Please provide a very concise summary of this text section:" ++ [LF; LF].

Definition MERGE_PROMPT : jsstring :=
  lit "Please provide a final concise summary combining these section summaries:"
  ++ [LF; LF].

(** The platform and the world outside the service: [JSON.parse] ([None]
    when it throws a SyntaxError), the conversion of a number to a string,
    the network behind [fetch] and [axios.post] (which may answer according
    to what has happened so far), and [chunkText] of [./utils]. *)
Class Platform : Type := {
  JSON_parse : jsstring -> option JSValue;
  NumberToString : float -> jsstring;
  fetch : Trace -> Request -> FetchOutcome;
  axios_post : Trace -> Request -> PostOutcome;
  chunkText : jsstring -> list jsstring
}.

Section Service.

Context {platform : Platform}.

(** ToString, as a template literal and [Array.prototype.join] apply it. *)
Fixpoint ToString (v : JSValue) : jsstring :=
  match v with
  | JUndefined => lit "undefined"
  | JNull => lit "null"
  | JBool true => lit "true"
  | JBool false => lit "false"
  | JNum x => NumberToString x
  | JStr s => s
  | JArr items =>
      join (lit ",")
        (map (fun item => match item with
                          | JUndefined | JNull => []
                          | _ => ToString item
                          end) items)
  | JObj _ => lit "[object Object]"
  end.

(** [items.join(sep)]. *)
Definition array_join (sep : jsstring) (items : list JSValue) : jsstring :=
  join sep
    (map (fun item => match item with
                      | JUndefined | JNull => []
                      | _ => ToString item
                      end) items).

(** [await fetch(url, init)]. *)
Definition do_fetch (r : Request) : M FetchResponse :=
  fun t =>
    match fetch t r with
    | FetchResolves resp => (inr resp, t ++ [Sent r])
    | FetchRejects e => (inl e, t ++ [Sent r])
    end.

(** [await axios.post(url, body, options)]. *)
Definition do_post (r : Request) : M AxiosResponse :=
  fun t =>
    match axios_post t r with
    | PostResolves resp => (inr resp, t ++ [Sent r])
    | PostRejects e => (inl e, t ++ [Sent r])
    end.

(** [json.choices[0]?.delta?.content]; [None] when the expression throws. *)
Definition delta_content (json : JSValue) : option JSValue :=
  match get json (lit "choices") with
  | None => None
  | Some choices =>
      match get0 choices with
      | None => None
      | Some choice => Some (get_opt (get_opt choice (lit "delta")) (lit "content"))
      end
  end.

(** The body of the [for] loop over the complete lines of the buffer. *)
Definition process_line (line : jsstring) : M unit :=
  if startsWith line (lit "data: ") && negb (str_eqb line (lit "data: [DONE]"))
  then
    match JSON_parse (slice 6 line) with
    | Some json =>
        match delta_content json with
        | Some content => if truthy content then emit (Chunk content) else ret tt
        | None => emit ConsoleError
        end
    | None => emit ConsoleError
    end
  else ret tt.

(** The [while (true)] loop, from the reads that are still to come and the
    current [buffer]. *)
Fixpoint read_loop (reads : list ReadStep) (buffer : jsstring) : M unit :=
  match reads with
  | [] => ret tt
  | ReadRejects e :: _ => throw e
  | ReadValue value :: reads' =>
      let buffer := buffer ++ value in
      let lines := split_on LF buffer in
      let (last, lines) := pop lines in
      let buffer := match last with
                    | Some ((_ :: _) as piece) => piece
                    | _ => []
                    end in
      for_of lines process_line ;;
      read_loop reads' buffer
  end.

(** [generateStreamingResponse(prompt, onChunk)]; a call [onChunk(v)] is the
    event [Chunk v], and the callback is taken to return normally.  The
    function has no [return] statement, so the promise it makes resolves
    with [undefined]. *)
Definition generateStreamingResponse (self : AIService) (prompt : jsstring)
  : M JSValue :=
  try_catch
    (response <- do_fetch (chat_request (config self) prompt true) ;;
     if negb (ok response) then
       let errorData := match json_body response with
                        | Some v => v
                        | None => JObj []
                        end in
       match get errorData (lit "error") with
       | None => throw TypeError
       | Some error =>
           throw (JSError (lit "Error")
                    (lit "HTTP error! status: " ++ decimal (fetch_status response)
                     ++ lit ", message: "
                     ++ ToString (js_or (get_opt error (lit "message"))
                                        (JStr (lit "Unknown error")))))
       end
     else
       match body_reader response with
       | None => throw (new_Error "No reader available")
       | Some reads => read_loop reads [] ;; ret JUndefined
       end)
    (fun error =>
       match error with
       | JSError name _ =>
           if str_eqb name (lit "AbortError")
           then throw (new_Error "Request timed out. Please try again.")
           else throw error
       | AxiosFailure _ => throw error
       end).

(** [response.data.choices[0].message.content]; [None] when it throws. *)
Definition message_content (d : JSValue) : option JSValue :=
  match get d (lit "choices") with
  | None => None
  | Some choices =>
      match get0 choices with
      | None => None
      | Some choice =>
          match get choice (lit "message") with
          | None => None
          | Some message => get message (lit "content")
          end
      end
  end.

(** [error.response?.data?.error?.message]. *)
Definition provider_message (e : AxiosError) : JSValue :=
  match response e with
  | None => JUndefined
  | Some r => get_opt (get_opt (data r) (lit "error")) (lit "message")
  end.

Definition status_is (e : AxiosError) (n : N) : bool :=
  match response e with
  | Some r => (status r =? n)%N
  | None => false
  end.

Definition code_is (e : AxiosError) (c : string) : bool :=
  match code e with
  | Some c' => str_eqb c' (lit c)
  | None => false
  end.

(** The [catch] clause of [generateResponse]. *)
Definition rethrow_classified {A} (error : Thrown) : M A :=
  match error with
  | AxiosFailure e =>
      if code_is e "ECONNABORTED"
      then throw (new_Error "Request timed out. Please try again.")
      else if status_is e 401
      then throw (new_Error
                    "Invalid API key. Please check your API key and try again.")
      else if status_is e 429
      then throw (new_Error
                    "Rate limit exceeded. Please try again in a few moments.")
      else throw (JSError (lit "Error")
                    (lit "API error: "
                     ++ ToString (js_or (provider_message e)
                                        (JStr (axios_message e)))))
  | JSError _ _ => throw (new_Error "Failed to connect to API. Please try again.")
  end.

Definition generateResponse (self : AIService) (prompt : jsstring) : M JSValue :=
  if negb (truthy (JStr (trim prompt))) then ret (JStr NO_CONTENT)
  else
    try_catch
      (response <- do_post (chat_request (config self) prompt false) ;;
       match message_content (data response) with
       | Some content => ret content
       | None => throw TypeError
       end)
      rethrow_classified.

Definition generateSummary (self : AIService) (text : jsstring) : M JSValue :=
  let chunks := chunkText text in
  summaries <- promise_all
                 (map (fun chunk => generateResponse self (SUMMARY_PROMPT ++ chunk))
                      chunks) ;;
  let combinedSummary := array_join [LF; LF] summaries in
  if 4000 <? List.length combinedSummary
  then generateResponse self (MERGE_PROMPT ++ combinedSummary)
  else ret (JStr combinedSummary).

(** *** Notions the properties are stated with *)

(** What the caller of [generateResponse] gets for each outcome of the
    request. *)
Definition settled (outcome : PostOutcome) : Thrown + JSValue :=
  match outcome with
  | PostResolves r =>
      match message_content (data r) with
      | Some content => inr content
      | None => inl (new_Error "Failed to connect to API. Please try again.")
      end
  | PostRejects e => fst (rethrow_classified (A := JSValue) e [])
  end.

(** The events of one line of the stream. *)
Definition line_events (line : jsstring) : Trace :=
  snd (process_line line []).

(** The complete lines of a buffer: all pieces of the split but the last. *)
Definition complete_lines (buffer : jsstring) : list jsstring :=
  snd (pop (split_on LF buffer)).

(** The request that asks for the summary of one chunk. *)
Definition summary_request (self : AIService) (chunk : jsstring) : Request :=
  chat_request (config self) (SUMMARY_PROMPT ++ chunk) false.

End Service.


(* ===================================================================== *)
(** ** The other generators of the service *)
(* ===================================================================== *)

Definition QUIZ_PROMPT : jsstring :=
  lit "Generate 5 multiple choice questions based on this text section:"
  ++ [LF; LF].

Definition FLASHCARDS_PROMPT : jsstring :=
  lit "Create 5 flashcards based on this text section. Format each flashcard as follows:"
  ++ [LF] ++ lit "Q: [Question]"
  ++ [LF] ++ lit "A: [Concise Answer]"
  ++ [LF; LF]
  ++ lit "Make sure each question-answer pair is separated by a blank line. Here's the text:"
  ++ [LF; LF].

Definition CONCEPTS_PROMPT : jsstring :=
  lit "Extract and briefly explain the key concepts from this text section:"
  ++ [LF; LF].

Definition COMBINE_PROMPT : jsstring :=
  lit "Please combine and organize these key concepts, removing any duplicates:"
  ++ [LF; LF].

(** [chunks[0]]: [undefined] on an empty array. *)
Definition first_chunk (chunks : list jsstring) : JSValue :=
  match chunks with
  | chunk :: _ => JStr chunk
  | [] => JUndefined
  end.

Section Generators.

Context {platform : Platform}.

Definition generateQuiz (self : AIService) (text : jsstring) : M JSValue :=
  let chunks := chunkText text in
  let prompt := QUIZ_PROMPT ++ ToString (first_chunk chunks) in
  generateResponse self prompt.

Definition generateFlashcards (self : AIService) (text : jsstring) : M JSValue :=
  let chunks := chunkText text in
  let prompt := FLASHCARDS_PROMPT ++ ToString (first_chunk chunks) in
  generateResponse self prompt.

Definition generateKeyConcepts (self : AIService) (text : jsstring) : M JSValue :=
  let chunks := chunkText text in
  conceptsList <- promise_all
                    (map (fun chunk => generateResponse self (CONCEPTS_PROMPT ++ chunk))
                         chunks) ;;
  generateResponse self (COMBINE_PROMPT ++ array_join [LF; LF] conceptsList).

End Generators.

(* ===================================================================== *)
(** ** The store ([store/openai.ts]) *)
(* ===================================================================== *)

Record OpenAIStore : Type := {
  store_apiKey : option jsstring;
  store_service : option AIService;
  store_error : option jsstring
}.

(** [setApiKey(key, provider)]: both branches set all three fields, so the
    new state does not depend on the old one. *)
Definition setApiKey (key : jsstring) (provider : option Provider)
  : M OpenAIStore :=
  try_catch
    (service <- createAIService key provider ;;
     ret {| store_apiKey := Some key;
            store_service := Some service;
            store_error := None |})
    (fun error =>
       ret {| store_error :=
                Some match error with
                     | JSError _ message => message
                     | AxiosFailure e => axios_message e
                     end;
              store_service := None;
              store_apiKey := None |}).

(** The document [api_keys/current] of the database, as [initializeService]
    reads it: the fields ['deepseek-key'] and ['openai-key'], each a string
    when it is there. *)
Record ApiKeysDocument : Type := {
  deepseek_key : option jsstring;
  openai_key : option jsstring
}.

(** The outcome of [getDoc]: the snapshot of a document that exists (with
    its data) or does not, or a rejection. *)
Inductive GetDocOutcome : Type :=
| Snapshot (data : option ApiKeysDocument)
| GetDocRejects (e : Thrown).

(** ToBoolean of a field: absent and empty are falsy. *)
Definition field_truthy (field : option jsstring) : bool :=
  match field with
  | Some (_ :: _) => true
  | _ => false
  end.

(** [a || b] on two fields. *)
Definition field_or (a b : option jsstring) : option jsstring :=
  if field_truthy a then a else b.

(** [error.message]; every value the store catches is an [Error]. *)
Definition error_message (error : Thrown) : jsstring :=
  match error with
  | JSError _ message => message
  | AxiosFailure e => axios_message e
  end.

(** [initializeService()], for the outcome of its [getDoc]. *)
Definition initializeService (outcome : GetDocOutcome) : M OpenAIStore :=
  try_catch
    (apiKeyDoc <- match outcome with
                  | Snapshot data => ret data
                  | GetDocRejects e => throw e
                  end ;;
     match apiKeyDoc with
     | None =>
         throw (new_Error
           "API keys not found in database. Please check the configuration.")
     | Some data =>
         let key := field_or (deepseek_key data) (openai_key data) in
         let provider :=
           if field_truthy (deepseek_key data) then deepseek else openai in
         match key with
         | Some ((_ :: _) as key) =>
             service <- createAIService key (Some provider) ;;
             ret {| store_apiKey := Some key;
                    store_service := Some service;
                    store_error := None |}
         | _ => throw (new_Error "API key is missing from the configuration.")
         end
     end)
    (fun error =>
       emit ConsoleError ;;
       ret {| store_error := Some (error_message error);
              store_service := None;
              store_apiKey := None |}).

(** [clearError()]: only the error is reset. *)
Definition clearError (st : OpenAIStore) : OpenAIStore :=
  {| store_apiKey := store_apiKey st;
     store_service := store_service st;
     store_error := None |}.

(** The store as [create] makes it. *)
Definition initial_store : OpenAIStore :=
  {| store_apiKey := None; store_service := None; store_error := None |}.

(** The operations of the store, and a run of several of them. *)
Inductive StoreAction : Type :=
| SetApiKey (key : jsstring) (provider : option Provider)
| InitializeService (outcome : GetDocOutcome)
| ClearError.

Definition store_step (action : StoreAction) (st : OpenAIStore) : M OpenAIStore :=
  match action with
  | SetApiKey key provider => setApiKey key provider
  | InitializeService outcome => initializeService outcome
  | ClearError => ret (clearError st)
  end.

Fixpoint store_run (actions : list StoreAction) (st : OpenAIStore)
  : M OpenAIStore :=
  match actions with
  | [] => ret st
  | action :: rest => st' <- store_step action st ;; store_run rest st'
  end.

(** [handleSubmit] of [APIKeyInput] ([components/Layout.tsx]). *)
Definition APIKeyInput_handleSubmit (key : jsstring) (st : OpenAIStore)
  : M OpenAIStore :=
  if truthy (JStr (trim key)) then setApiKey (trim key) None else ret st.

(** What the store keeps true: a service and a key are there together or
    not at all; when they are, the key is the one of the service, it has the
    recognized shape, and no error is recorded. *)
Definition store_consistent (st : OpenAIStore) : Prop :=
  match store_service st, store_apiKey st with
  | Some service, Some key =>
      apiKey (config service) = key
      /\ validateApiKey key = true
      /\ store_error st = None
  | None, None => True
  | _, _ => False
  end.

(* ===================================================================== *)
(** ** A caller that streams: the chat ([components/RealtimeChat.tsx]) *)
(* ===================================================================== *)

Module RealtimeChat.

Inductive Role : Type := user | assistant.

Record Message : Type := {
  role : Role;
  content : jsstring;
  isStreaming : option bool      (* isStreaming?: boolean *)
}.

(** The state of the component that [handleSubmit] reads and sets.  What
    is spoken when speech is on is not part of it; [speakText] is taken to
    return normally. *)
Record State : Type := {
  messages : list Message;
  input : jsstring;
  streaming : bool;              (* the state variable isStreaming *)
  streamingMessage : option Message
}.

(** [[...prev.slice(0, -1), message]]. *)
Definition replace_last (message : Message) (prev : list Message)
  : list Message :=
  removelast prev ++ [message].

Definition streaming_message (streamedContent : jsstring) : Message :=
  {| role := assistant; content := streamedContent; isStreaming := Some true |}.

Definition SORRY : Message :=
  {| role := assistant;
     content := lit "Sorry, I encountered an error. Please try again.";
     isStreaming := None |}.

(** The events a computation has added to the trace [t]. *)
Definition events_since (t t' : Trace) : Trace := skipn (List.length t) t'.

Section Component.

Context {platform : Platform}.

(** The callback handed to [generateStreamingResponse], on the local
    variable [streamedContent] and the state. *)
Definition onChunk (acc : jsstring * State) (chunk : JSValue)
  : jsstring * State :=
  let (streamedContent, st) := acc in
  let streamedContent := streamedContent ++ ToString chunk in
  (streamedContent,
   {| messages := replace_last (streaming_message streamedContent) (messages st);
      input := input st;
      streaming := streaming st;
      streamingMessage := Some (streaming_message streamedContent) |}).

Definition handleSubmit (service : option AIService) (st : State) : M State :=
  match service with
  | None => ret st
  | Some service =>
      if negb (truthy (JStr (trim (input st)))) || streaming st then ret st
      else
        fun t =>
          let userMessage :=
            {| role := user; content := input st; isStreaming := None |} in
          let initialStreamingMessage := streaming_message [] in
          let st1 :=
            {| messages := (messages st ++ [userMessage])
                           ++ [initialStreamingMessage];
               input := [];
               streaming := true;
               streamingMessage := Some initialStreamingMessage |} in
          let (outcome, t') := generateStreamingResponse service (input st) t in
          let (streamedContent, st2) :=
            fold_left onChunk (chunks_delivered (events_since t t')) ([], st1) in
          match outcome with
          | inr _ =>
              let finalMessage :=
                {| role := assistant;
                   content := streamedContent;
                   isStreaming := Some false |} in
              (inr {| messages := replace_last finalMessage (messages st2);
                      input := input st2;
                      streaming := false;
                      streamingMessage := None |}, t')
          | inl _ =>
              (inr {| messages := messages st2 ++ [SORRY];
                      input := input st2;
                      streaming := false;
                      streamingMessage := streamingMessage st2 |},
               t' ++ [ConsoleError])
          end
  end.

End Component.

End RealtimeChat.

(* ===================================================================== *)
(** ** Callers that read the answer: flashcards, quiz, key concepts *)
(* ===================================================================== *)

(** [s.split(sep)] for a separator that is not empty: the text is scanned
    from the left, each occurrence of the separator closes a piece and is
    skipped.  [skip] counts the characters of a separator still to skip and
    [current] is the piece being read. *)
Fixpoint split_scan (sep : jsstring) (skip : nat) (current s : jsstring)
  : list jsstring :=
  match s with
  | [] => [current]
  | c :: s' =>
      match skip with
      | S skip' => split_scan sep skip' current s'
      | 0 =>
          if startsWith s sep
          then current :: split_scan sep (List.length sep - 1) [] s'
          else split_scan sep 0 (current ++ [c]) s'
      end
  end.

Definition split (s sep : jsstring) : list jsstring := split_scan sep 0 [] s.

(** [s.includes(pattern)]. *)
Fixpoint includes (s pattern : jsstring) : bool :=
  startsWith s pattern
  || match s with
     | [] => false
     | _ :: s' => includes s' pattern
     end.

(** [s.replace(pattern, replacement)] for a pattern that is a string, and a
    replacement without [$]: the first occurrence is replaced. *)
Fixpoint replace (s pattern replacement : jsstring) : jsstring :=
  if startsWith s pattern
  then replacement ++ skipn (List.length pattern) s
  else match s with
       | [] => []
       | c :: s' => c :: replace s' pattern replacement
       end.

(** [await Promise.all] is not involved here: [xs.map(f)] with an [f] that
    may log, one element after the other. *)
Fixpoint map_M {A B} (f : A -> M B) (xs : list A) : M (list B) :=
  match xs with
  | [] => ret []
  | x :: rest => y <- f x ;; ys <- map_M f rest ;; ret (y :: ys)
  end.

Module Flashcards.

Record Flashcard : Type := {
  question : jsstring;
  answer : jsstring
}.

Definition PROMPT : jsstring :=
  lit "Create 5 flashcards based on this text. Format EXACTLY as follows:"
  ++ [LF] ++ lit "Q: [Question]"
  ++ [LF] ++ lit "A: [Concise Answer]"
  ++ [LF; LF] ++ lit "Rules:"
  ++ [LF] ++ lit "1. Each Q&A pair must be separated by a blank line"
  ++ [LF] ++ lit "2. Questions should test key concepts"
  ++ [LF] ++ lit "3. Answers should be clear and concise"
  ++ [LF] ++ lit "4. Use Q: and A: prefixes exactly as shown"
  ++ [LF] ++ lit "5. Cover main ideas and important details"
  ++ [LF; LF] ++ lit "Text: ".

Definition ERROR_CARD : Flashcard :=
  {| question := lit "Error generating flashcards";
     answer :=
       lit "Please try again or check if the document contains enough content." |}.

(** The first filter: the pieces that look like a card. *)
Definition looks_like_card (card : jsstring) : bool :=
  startsWith (trim card) (lit "Q:") && includes card (LF :: lit "A:").

(** The function mapped over the pieces: a card, or [null] and a line on
    the console. *)
Definition to_card (card : jsstring) : M (option Flashcard) :=
  match split card (LF :: lit "A:") with
  | [q; a] =>
      ret (Some {| question := trim (replace q (lit "Q:") []);
                   answer := trim a |})
  | _ => emit ConsoleError ;; ret None
  end.

(** The last filter: the cards that are not [null]. *)
Definition not_null (cards : list (option Flashcard)) : list Flashcard :=
  flat_map (fun card => match card with Some c => [c] | None => [] end) cards.

(** The parsing of the answer into cards. *)
Definition parse (result : jsstring) : M (list Flashcard) :=
  cards <- map_M to_card (filter looks_like_card (split result [LF; LF])) ;;
  ret (not_null cards).

Section Component.

Context {platform : Platform}.

(** The effect that loads the cards, with the state it reads ([loading],
    [flashcards]); it returns the cards the component holds afterwards. *)
Definition load (service : option AIService) (text : jsstring) (loading : bool)
  (flashcards : list Flashcard) : M (list Flashcard) :=
  if negb (truthy (JStr text)) || loading then ret flashcards
  else
    match service with
    | None => emit ConsoleError ;; ret flashcards
    | Some service =>
        try_catch
          (result <- generateResponse service (PROMPT ++ text) ;;
           if negb (truthy result)
           then throw (new_Error "No response from AI service")
           else
             match result with
             | JStr result =>
                 cards <- parse result ;;
                 match cards with
                 | [] => throw (new_Error "No valid flashcards could be generated")
                 | _ :: _ => ret cards
                 end
             | _ => throw TypeError       (* result.split is not a function *)
             end)
          (fun error => emit ConsoleError ;; ret [ERROR_CARD])
    end.

End Component.

(** [goToNextCard] and [goToPreviousCard], on the index of the card shown
    and the length of a deck that is not empty; [%] is the remainder of
    JavaScript, which takes the sign of the dividend.  (For an empty deck
    the remainder is NaN, which [Z] does not have: the deck is never empty
    once the cards are loaded, and no property below is about that case.) *)
Definition goToNextCard (length prev : Z) : Z := Z.rem (prev + 1) length.

Definition goToPreviousCard (length prev : Z) : Z :=
  Z.rem (prev - 1 + length) length.

(** The text the prompt asks for: the cards in the format it shows, a blank
    line between them. *)
Definition format_card (card : Flashcard) : jsstring :=
  lit "Q: " ++ question card ++ [LF] ++ lit "A: " ++ answer card.

Definition format (cards : list Flashcard) : jsstring :=
  join [LF; LF] (map format_card cards).

(** A field that survives the format: one line, nothing to trim. *)
Definition plain (field : jsstring) : Prop :=
  ~ In LF field /\ trim field = field.

End Flashcards.

Module Quiz.

Record Question : Type := {
  correctAnswer : Z
}.

Record State : Type := {
  currentQuestion : nat;
  selectedAnswer : option Z;
  isAnswered : bool;
  score : Z
}.

(** [handleAnswer(answerIndex)]; [None] is the TypeError of reading
    [correctAnswer] of a question that is not there. *)
Definition handleAnswer (questions : list Question) (answerIndex : Z)
  (st : State) : option State :=
  if isAnswered st then Some st
  else
    match nth_error questions (currentQuestion st) with
    | None => None
    | Some q =>
        Some {| currentQuestion := currentQuestion st;
                selectedAnswer := Some answerIndex;
                isAnswered := true;
                score := if (answerIndex =? correctAnswer q)%Z
                         then (score st + 1)%Z else score st |}
    end.

Definition nextQuestion (questions : list Question) (st : State) : State :=
  if (Z.of_nat (currentQuestion st) <? Z.of_nat (List.length questions) - 1)%Z
  then {| currentQuestion := currentQuestion st + 1;
          selectedAnswer := None;
          isAnswered := false;
          score := score st |}
  else st.

Definition previousQuestion (st : State) : State :=
  if 0 <? currentQuestion st
  then {| currentQuestion := currentQuestion st - 1;
          selectedAnswer := None;
          isAnswered := false;
          score := score st |}
  else st.

Definition resetQuiz (st : State) : State :=
  {| currentQuestion := 0; selectedAnswer := None; isAnswered := false;
     score := 0 |}.

(** What the user can do, and a run of it. *)
Inductive Action : Type :=
| Answer (answerIndex : Z)
| Next
| Previous
| Reset.

Definition step (questions : list Question) (action : Action) (st : State)
  : option State :=
  match action with
  | Answer answerIndex => handleAnswer questions answerIndex st
  | Next => Some (nextQuestion questions st)
  | Previous => Some (previousQuestion st)
  | Reset => Some (resetQuiz st)
  end.

Fixpoint run (questions : list Question) (actions : list Action) (st : State)
  : option State :=
  match actions with
  | [] => Some st
  | action :: rest =>
      match step questions action st with
      | Some st' => run questions rest st'
      | None => None
      end
  end.

End Quiz.

Module KeyConcepts.

(** [toggleSection(index)] on the list of the expanded sections. *)
Definition toggleSection (index : Z) (prev : list Z) : list Z :=
  if existsb (Z.eqb index) prev
  then filter (fun i => negb (i =? index)%Z) prev
  else prev ++ [index].

End KeyConcepts.

(* ===================================================================== *)
(** ** Splitting a document *)
(* ===================================================================== *)

(** Modelled from the spec: [chunkText] is imported from [./utils], which is
    not among the sources.  The specification describes it as
    [splitDocument(text, chunkSizeBudget)], a split on a fixed character
    budget into consecutive pieces, in order, without overlap and without
    trimming: every piece but the last has exactly [chunkSizeBudget]
    characters.  The specification speaks of positive budgets only; with a
    budget of 0 no piece can be cut and the model returns none. *)
Equations? splitDocument (text : jsstring) (chunkSizeBudget : nat)
  : list jsstring by wf (List.length text) lt :=
splitDocument [] _ := [];
splitDocument (c :: text') 0 := [];
splitDocument (c :: text') (S b) :=
  slice_to (S b) (c :: text') :: splitDocument (slice (S b) (c :: text')) (S b).
Proof.
  unfold slice. simpl. pose proof (length_skipn b text'). lia.
Qed.

(** Modelled from the spec: the budget [chunkText] uses when it is called
    with the text alone, 4,000 characters in the specification's example. *)
Definition DEFAULT_CHUNK_BUDGET : nat := 4000.

(** Modelled from the spec: [chunkText(text)] as [generateSummary] calls it. *)
Definition chunkText_default (text : jsstring) : list jsstring :=
  splitDocument text DEFAULT_CHUNK_BUDGET.

(* ===================================================================== *)
(** ** The words of the specification *)
(* ===================================================================== *)

(** The recognized shape of a credential: the prefix [sk-] or [ds-],
    followed by at least 10 characters, each a word character or a hyphen. *)
Definition recognized_shape (key : jsstring) : Prop :=
  exists rest,
    (key = lit "sk-" ++ rest \/ key = lit "ds-" ++ rest)
    /\ 10 <= List.length rest
    /\ Forall (fun c => is_word_or_hyphen c = true) rest.

(** A prompt that is empty or consists only of white space. *)
Definition blank (prompt : jsstring) : Prop :=
  Forall (fun c => is_white_space c = true) prompt.

(** The marker of a data-bearing line and the terminal line. *)
Definition DATA : jsstring := lit "data: ".

Definition TERMINAL : jsstring := lit "data: [DONE]".

(** The delta a frame carries: [choices[0].delta.content] of its JSON
    payload, when the payload can be read and the content is not empty. *)
Definition decoded_delta {platform : Platform} (payload : jsstring)
  : list JSValue :=
  match JSON_parse payload with
  | Some json =>
      match delta_content json with
      | Some content => if truthy content then [content] else []
      | None => []
      end
  | None => []
  end.

(** A valid frame, in the words of the wire protocol: the payload is the
    JSON text of an object whose [choices] is an array, the first choice an
    object whose [delta] is an object, and the [content] of that delta is
    the text the frame carries, which is not empty. *)
Definition carries {platform : Platform} (payload text : jsstring) : Prop :=
  exists fields choice others delta,
    JSON_parse payload = Some (JObj fields)
    /\ own_property fields (lit "choices") = JArr (JObj choice :: others)
    /\ own_property choice (lit "delta") = JObj delta
    /\ own_property delta (lit "content") = JStr text
    /\ text <> [].

(** What a line of the stream delivers: the delta of its payload when it is
    a data-bearing line other than the terminal one, nothing otherwise. *)
Definition line_delta {platform : Platform} (line : jsstring) : list JSValue :=
  if startsWith line DATA && negb (str_eqb line TERMINAL)
  then decoded_delta (slice 6 line)
  else [].

(** The text of a stream made of [lines], each closed by a line feed. *)
Definition stream_text (lines : list jsstring) : jsstring :=
  List.concat (map (fun line => line ++ [LF]) lines).

(** The lines of a sequence of frames: the data-bearing line of each
    payload, each followed by [gap], the lines the transport puts between
    frames (none, or the blank line that ends an event of an event stream). *)
Definition frame_lines (gap payloads : list jsstring) : list jsstring :=
  flat_map (B := jsstring) (fun payload : jsstring => (DATA ++ payload) :: gap)
    payloads.

(** A line that may stand between frames: it is not data-bearing. *)
Definition between_frames (line : jsstring) : Prop :=
  startsWith line DATA = false /\ ~ In LF line.

(** The lines of a stream up to its first terminal line. *)
Fixpoint until_terminal (lines : list jsstring) : list jsstring :=
  match lines with
  | [] => []
  | line :: rest =>
      if str_eqb line TERMINAL then [] else line :: until_terminal rest
  end.

(** The text of the deltas that are strings, concatenated. *)
Definition accumulated (deltas : list JSValue) : jsstring :=
  flat_map (fun v => match v with JStr s => s | _ => [] end) deltas.

(** The taxonomy of failures of the specification. *)
Inductive FailureClassification : Type :=
| Timeout | Unauthorized | RateLimited | Malformed | Network | Unknown.

(** The buffered response has the expected shape when its
    [choices[0].message.content] is a string. *)
Definition expected_shape (d : JSValue) : bool :=
  match message_content d with
  | Some (JStr _) => true
  | _ => false
  end.

(** The cause of a failed request, in the words of the specification: no
    response within the bound (axios reports it with the code ECONNABORTED),
    an authentication error of the provider (HTTP 401), throttling (HTTP 429),
    a failure of the transport (no response at all), a response that cannot
    be read in the expected shape.  [None] is a request that succeeded. *)
Definition failure_cause (outcome : PostOutcome)
  : option FailureClassification :=
  match outcome with
  | PostRejects (AxiosFailure e) =>
      if code_is e "ECONNABORTED" then Some Timeout
      else match response e with
           | Some r =>
               if (status r =? 401)%N then Some Unauthorized
               else if (status r =? 429)%N then Some RateLimited
               else Some Unknown
           | None => Some Network
           end
  | PostRejects (JSError _ _) => Some Unknown
  | PostResolves r => if expected_shape (data r) then None else Some Malformed
  end.

(* ===================================================================== *)
(** ** Simulated platforms *)
(* ===================================================================== *)

(** A streamed response that is accepted and delivers [reads], one per
    [reader.read()], before it is done. *)
Definition streamed (reads : list jsstring) : FetchResponse :=
  {| ok := true;
     fetch_status := 200;
     json_body := None;
     body_reader := Some (map ReadValue reads) |}.

(** A buffered response whose [choices[0].message] is [message]. *)
Definition completion (message : JSValue) : AxiosResponse :=
  {| status := 200;
     data := JObj [(lit "choices", JArr [JObj [(lit "message", message)]])] |}.

(** The platform of the examples: [fetch] answers with the stream [reads],
    [axios.post] with [reply], JSON is read by [parse_json], and documents
    are split as the specification describes.  No example prints a number. *)
Definition simulated (reads : list jsstring)
  (reply : Trace -> Request -> PostOutcome) : Platform :=
  {| JSON_parse := parse_json;
     NumberToString := fun _ => lit "NaN";
     fetch := fun _ _ => FetchResolves (streamed reads);
     axios_post := reply;
     chunkText := chunkText_default |}.

(** A client made from a key of the recognized shape. *)
Definition a_service : AIService :=
  {| config := {| baseURL := lit "https://api.openai.com/v1";
                  apiKey := lit "sk-0123456789";
                  model := lit "gpt-3.5-turbo" |} |}.

(** A network without connection, for the examples that only stream. *)
Definition offline : Trace -> Request -> PostOutcome :=
  fun _ _ =>
    PostRejects (AxiosFailure {| code := Some (lit "ERR_NETWORK");
                                 response := None;
                                 axios_message := lit "Network Error" |}).

(** A provider that answers every request with the same text. *)
Definition always (summary : jsstring) : Trace -> Request -> PostOutcome :=
  fun _ _ => PostResolves (completion (JObj [(lit "content", JStr summary)])).

(** A provider that answers each request with 50 letters, a different
    letter for each request in the order in which they are sent: a's for
    the first, b's for the second, and so on. *)
Definition in_turn_answer (t : Trace) (req : Request) : jsstring :=
  repeat (97 + N.of_nat (List.length t))%N 50.

Definition in_turn : Trace -> Request -> PostOutcome :=
  fun t req =>
    PostResolves (completion (JObj [(lit "content", JStr (in_turn_answer t req))])).

(** A provider whose answer has a message without content. *)
Definition without_content : Trace -> Request -> PostOutcome :=
  fun _ _ => PostResolves (completion (JObj [])).

(** The payloads of two frames that spell "Hello", and one that is cut off
    in the middle. *)
Definition frame_Hel : jsstring := dq "{'choices':[{'delta':{'content':'Hel'}}]}".

Definition frame_lo : jsstring := dq "{'choices':[{'delta':{'content':'lo'}}]}".

Definition frame_cut : jsstring := dq "{'choices':[{'delta':{'conte".

(** The stream of the two frames and the terminal line, a blank line after
    each, cut into two reads in the middle of the second frame. *)
Definition hello_stream : jsstring :=
  stream_text (frame_lines [[]] [frame_Hel; frame_lo] ++ [TERMINAL; []]).

Definition hello_reads : list jsstring :=
  [slice_to 60 hello_stream; slice 60 hello_stream].

(** A stream with a frame after the terminal line, in one read. *)
Definition late_lines : list jsstring :=
  [DATA ++ frame_Hel; TERMINAL; DATA ++ frame_lo].

(** A stream with a frame that cannot be parsed between two that can. *)
Definition noisy_reads : list jsstring :=
  let text := stream_text (frame_lines [[]] [frame_Hel; frame_cut; frame_lo]) in
  [slice_to 10 text; slice_to 70 (slice 10 text); slice 80 text].

(** Documents of 4,001 and of 9,000 characters, and a summary of 50. *)
Definition document_4001 : jsstring := repeat 97%N 4001.

Definition document_9000 : jsstring := repeat 97%N 9000.

Definition summary_50 : jsstring := repeat 115%N 50.

Definition summary_1333 : jsstring := repeat 115%N 1333.

(** A platform whose [fetch] gives one fixed outcome. *)
Definition answering (outcome : FetchOutcome) : Platform :=
  {| JSON_parse := parse_json;
     NumberToString := fun _ => lit "NaN";
     fetch := fun _ _ => outcome;
     axios_post := offline;
     chunkText := chunkText_default |}.

(** The stream that spells "Hello", aborted after its first read. *)
Definition ABORTED : Thrown :=
  JSError (lit "AbortError") (lit "The operation was aborted.").

Definition aborted_stream : FetchResponse :=
  {| ok := true;
     fetch_status := 200;
     json_body := None;
     body_reader :=
       Some (map ReadValue [slice_to 60 hello_stream]
             ++ ReadRejects ABORTED :: [ReadValue (slice 60 hello_stream)]) |}.



(** A stream whose last line is a whole frame that is not closed. *)
Definition unclosed_stream : jsstring :=
  stream_text [DATA ++ frame_Hel] ++ DATA ++ frame_lo.

(** A chat in which "Say hello" has been typed. *)
Definition chat_ready : RealtimeChat.State :=
  {| RealtimeChat.messages := [];
     RealtimeChat.input := lit "Say hello";
     RealtimeChat.streaming := false;
     RealtimeChat.streamingMessage := None |}.

(** Two cards, and a quiz of two questions. *)
Definition two_cards : list Flashcards.Flashcard :=
  [ {| Flashcards.question := lit "What is 2 + 2?"; Flashcards.answer := lit "4" |};
    {| Flashcards.question := lit "Capital of France?";
       Flashcards.answer := lit "Paris" |} ].

Definition two_questions : list Quiz.Question :=
  [ {| Quiz.correctAnswer := 1 |}; {| Quiz.correctAnswer := 3 |} ].

Definition quiz_start : Quiz.State :=
  {| Quiz.currentQuestion := 0;
     Quiz.selectedAnswer := None;
     Quiz.isAnswered := false;
     Quiz.score := 0 |}.

(* ===================================================================== *)
(** * Properties *)
(* ===================================================================== *)

(** ** Strings *)

Lemma str_eqb_eq a b : str_eqb a b = true <-> a = b.
Proof.
  revert b. induction a as [|c a IH]; intros [|d b]; simpl;
    try (split; [discriminate | congruence]); try tauto.
  rewrite andb_true_iff, N.eqb_eq, IH. split.
  - intros [-> ->]. reflexivity.
  - intros [= -> ->]. auto.
Qed.

Lemma str_eqb_refl a : str_eqb a a = true.
Proof. apply str_eqb_eq. reflexivity. Qed.

Lemma str_eqb_neq a b : a <> b -> str_eqb a b = false.
Proof.
  intros H. destruct (str_eqb a b) eqn:E; [|reflexivity].
  apply str_eqb_eq in E. contradiction.
Qed.

Lemma startsWith_app prefix s : startsWith (prefix ++ s) prefix = true.
Proof.
  induction prefix as [|p prefix IH]; simpl; [reflexivity|].
  rewrite N.eqb_refl. exact IH.
Qed.

Lemma slice_app (prefix s : jsstring) : slice (List.length prefix) (prefix ++ s) = s.
Proof.
  unfold slice. induction prefix; simpl; auto.
Qed.

(** ** Regular expressions: the derivative decides the language *)

Lemma Regex_nullable_Matches r : Regex.nullable r = true <-> Regex.Matches r [].
Proof.
  split.
  - induction r; simpl; intros H; try discriminate.
    + constructor.
    + apply andb_true_iff in H as [H1 H2].
      change (@nil char16) with (@nil char16 ++ []). constructor; auto.
    + apply orb_true_iff in H as [H|H]; [apply Regex.MAltL | apply Regex.MAltR]; auto.
    + constructor.
  - induction r; simpl; intros H; inversion H; subst; auto.
    + match goal with E : _ ++ _ = [] |- _ => apply app_eq_nil in E as [-> ->] end.
      rewrite IHr1, IHr2; auto.
    + rewrite IHr1; auto.
    + rewrite IHr2; auto using orb_true_r.
Qed.

Lemma Regex_Matches_Star_cons a c s :
  Regex.Matches (Regex.Star a) (c :: s) ->
  exists s1 s2, s = s1 ++ s2 /\ Regex.Matches a (c :: s1) /\ Regex.Matches (Regex.Star a) s2.
Proof.
  intros H. remember (Regex.Star a) as r eqn:Er. remember (c :: s) as w eqn:Ew.
  revert c s Ew. induction H; intros c0 s0 Ew; try discriminate.
  injection Er as ->.
  destruct s1 as [|d s1].
  - simpl in Ew. apply IHMatches2; auto.
  - simpl in Ew. injection Ew as -> <-.
    exists s1, s2. auto.
Qed.

Lemma Regex_deriv_Matches r : forall c s, Regex.Matches (Regex.deriv c r) s <-> Regex.Matches r (c :: s).
Proof.
  induction r as [| |member|a IHa b IHb|a IHa b IHb|a IHa]; intros c s; simpl.
  - split; intros H; inversion H.
  - split; intros H; inversion H.
  - destruct (member c) eqn:E; split; intros H; inversion H; subst.
    + constructor. exact E.
    + constructor.
    + congruence.
  - assert (forall s, Regex.Matches (Regex.Cat (Regex.deriv c a) b) s -> Regex.Matches (Regex.Cat a b) (c :: s))
      as Hcat.
    { intros s' H. inversion H; subst.
      change (c :: s1 ++ s2) with ((c :: s1) ++ s2).
      constructor; [apply IHa|]; assumption. }
    split.
    + destruct (Regex.nullable a) eqn:En; intros H.
      * inversion H; subst; [auto|].
        change (c :: s) with ([] ++ c :: s).
        constructor; [apply Regex_nullable_Matches; exact En | apply IHb; assumption].
      * auto.
    + intros H. inversion H as [| |a' b' s1 s2 H1 H2 E1 E2| | | |]; subst.
      destruct s1 as [|d s1]; simpl in E2.
      * subst s2. apply Regex_nullable_Matches in H1 as En. rewrite En.
        apply Regex.MAltR, IHb. assumption.
      * injection E2 as -> <-.
        assert (Regex.Matches (Regex.Cat (Regex.deriv c a) b) (s1 ++ s2)) as H'
          by (constructor; [apply IHa|]; assumption).
        destruct (Regex.nullable a); [apply Regex.MAltL|]; exact H'.
  - split; intros H; inversion H; subst;
      [apply Regex.MAltL, IHa | apply Regex.MAltR, IHb | apply Regex.MAltL, IHa | apply Regex.MAltR, IHb];
      assumption.
  - split; intros H.
    + inversion H; subst.
      change (c :: s1 ++ s2) with ((c :: s1) ++ s2).
      constructor; [apply IHa|]; assumption.
    + apply Regex_Matches_Star_cons in H as (s1 & s2 & -> & H1 & H2).
      constructor; [apply IHa|]; assumption.
Qed.

Lemma Regex_test_anchored_Matches s : forall r, Regex.test_anchored r s = true <-> Regex.Matches r s.
Proof.
  unfold Regex.test_anchored. induction s as [|c s IH]; intros r; simpl.
  - apply Regex_nullable_Matches.
  - rewrite IH. apply Regex_deriv_Matches.
Qed.

Lemma Regex_Matches_Cat a b s :
  Regex.Matches (Regex.Cat a b) s
  <-> exists s1 s2, s = s1 ++ s2 /\ Regex.Matches a s1 /\ Regex.Matches b s2.
Proof.
  split.
  - intros H. inversion H; subst. eauto.
  - intros (s1 & s2 & -> & H1 & H2). constructor; assumption.
Qed.

Lemma Regex_Matches_Alt a b s : Regex.Matches (Regex.Alt a b) s <-> Regex.Matches a s \/ Regex.Matches b s.
Proof.
  split.
  - intros H. inversion H; subst; auto.
  - intros [H|H]; [apply Regex.MAltL | apply Regex.MAltR]; assumption.
Qed.

Lemma Regex_Matches_Lit p s : Regex.Matches (Regex.Lit p) s <-> s = p.
Proof.
  revert s. induction p as [|c p IH]; intros s; simpl.
  - split; intros H; [inversion H; reflexivity | subst; constructor].
  - split; intros H.
    + inversion H as [| |a b s1 s2 H1 H2| | | |]; subst.
      inversion H1; subst. apply IH in H2 as ->.
      match goal with E : (_ =? _)%N = true |- _ => apply N.eqb_eq in E as -> end.
      reflexivity.
    + subst. change (c :: p) with ([c] ++ p). constructor.
      * constructor. apply N.eqb_refl.
      * apply IH. reflexivity.
Qed.

Lemma Regex_Matches_Star_Class member s :
  Regex.Matches (Regex.Star (Regex.Class member)) s <-> Forall (fun c => member c = true) s.
Proof.
  split.
  - intros H. remember (Regex.Star (Regex.Class member)) as r eqn:Er.
    induction H; try discriminate; [constructor|].
    injection Er as ->. inversion H; subst. simpl. constructor; auto.
  - induction 1 as [|c s Hc _ IH]; [constructor|].
    change (c :: s) with ([c] ++ s). constructor; [constructor|]; assumption.
Qed.

Lemma Regex_Matches_AtLeast_Class n member : forall s,
  Regex.Matches (Regex.AtLeast n (Regex.Class member)) s
  <-> n <= List.length s /\ Forall (fun c => member c = true) s.
Proof.
  induction n as [|n IH]; intros s; simpl.
  - rewrite Regex_Matches_Star_Class. split; [split; [lia|assumption] | tauto].
  - split.
    + intros H. inversion H as [| |a b s1 s2 H1 H2| | | |]; subst.
      inversion H1; subst. apply IH in H2 as [Hlen Hall].
      simpl. split; [lia | constructor; assumption].
    + intros [Hlen Hall]. destruct Hall as [|c s Hc Hall]; simpl in Hlen; [lia|].
      change (c :: s) with ([c] ++ s). constructor.
      * constructor. exact Hc.
      * apply IH. split; [lia | assumption].
Qed.


(** The pattern of the source accepts exactly the keys of the recognized
    shape. *)
Lemma validateApiKey_shape key : validateApiKey key = true <-> recognized_shape key.
Proof.
  unfold validateApiKey, recognized_shape, api_key_pattern.
  rewrite Regex_test_anchored_Matches, Regex_Matches_Cat. split.
  - intros (s1 & rest & -> & H1 & H2). exists rest.
    apply Regex_Matches_AtLeast_Class in H2 as [Hlen Hall].
    split; [|split; assumption].
    apply Regex_Matches_Alt in H1 as [H1|H1];
      apply Regex_Matches_Lit in H1 as ->; auto.
  - intros (rest & Hkey & Hlen & Hall).
    exists (firstn 3 key), rest.
    rewrite Regex_Matches_Alt, !Regex_Matches_Lit,
      Regex_Matches_AtLeast_Class.
    destruct Hkey as [-> | ->]; simpl; auto.
Qed.

Lemma validateApiKey_not_shape key :
  validateApiKey key = false <-> ~ recognized_shape key.
Proof.
  rewrite <- validateApiKey_shape. destruct (validateApiKey key); split;
    congruence.
Qed.

(** ** White space *)

Lemma trimStart_nil s : trimStart s = [] <-> blank s.
Proof.
  unfold blank. induction s as [|c s IH]; simpl.
  - split; auto.
  - destruct (is_white_space c) eqn:E.
    + rewrite IH. split; [constructor; assumption | inversion 1; assumption].
    + split; [discriminate | inversion 1; congruence].
Qed.

Lemma trimStart_blank s : blank (trimStart s) -> blank s.
Proof.
  unfold blank. induction s as [|c s IH]; simpl; [auto|].
  destruct (is_white_space c) eqn:E; [constructor; auto|].
  inversion 1; congruence.
Qed.

Lemma trim_nil s : trim s = [] <-> blank s.
Proof.
  unfold trim, trimEnd. split.
  - intros H. apply (f_equal (@rev _)) in H. rewrite rev_involutive in H.
    simpl in H. apply trimStart_nil in H.
    apply trimStart_blank. unfold blank in *.
    apply Forall_rev in H. rewrite rev_involutive in H. exact H.
  - intros H. apply trimStart_nil in H. rewrite H. reflexivity.
Qed.

Lemma blank_prompt_falsy prompt : blank prompt -> truthy (JStr (trim prompt)) = false.
Proof. intros H. apply trim_nil in H. rewrite H. reflexivity. Qed.

Lemma visible_prompt_truthy prompt :
  ~ blank prompt -> truthy (JStr (trim prompt)) = true.
Proof.
  intros H. simpl. destruct (trim prompt) eqn:E; [|reflexivity].
  apply trim_nil in E. contradiction.
Qed.

Lemma visible_head c s : is_white_space c = false -> ~ blank (c :: s).
Proof. intros E H. inversion H; congruence. Qed.

(** ** Construction *)

(** C7.  A credential that does not have the recognized shape makes the
    construction of the client fail at once with the error "Invalid API key
    format", the trace of effects is left as it was (no request is sent), and
    [setApiKey] records the error in the store; a credential of the
    recognized shape makes the construction succeed, again without any
    request. *)
Theorem credential_validation key provider t :
  (recognized_shape key ->
     exists service,
       createAIService key provider t = (inr service, t)
       /\ apiKey (config service) = key
       /\ setApiKey key provider t =
            (inr {| store_apiKey := Some key;
                    store_service := Some service;
                    store_error := None |}, t))
  /\ (~ recognized_shape key ->
        createAIService key provider t
          = (inl (new_Error "Invalid API key format"), t)
        /\ setApiKey key provider t =
             (inr {| store_apiKey := None;
                     store_service := None;
                     store_error := Some (lit "Invalid API key format") |}, t)).
Proof.
  unfold setApiKey, try_catch, bind, createAIService, new_AIService. split.
  - intros H. apply validateApiKey_shape in H. rewrite H. simpl.
    eexists. split; [reflexivity|]. split; reflexivity.
  - intros H. apply validateApiKey_not_shape in H. rewrite H. simpl.
    split; reflexivity.
Qed.

(** C10.  The check of the credential does not look at the provider, and
    the endpoint and the model do not look at the credential: a key with
    either prefix is accepted with either provider, and the client it yields
    has the base URL and the model of the provider that was asked for. *)
Theorem provider_selects_endpoint prefix rest provider t :
  prefix = lit "sk-" \/ prefix = lit "ds-" ->
  10 <= List.length rest ->
  Forall (fun c => is_word_or_hyphen c = true) rest ->
  createAIService (prefix ++ rest) (Some provider) t =
    (inr {| config := {|
       baseURL := match provider with
                  | openai => lit "https://api.openai.com/v1"
                  | deepseek => lit "https://api.deepseek.com/v1"
                  end;
       apiKey := prefix ++ rest;
       model := match provider with
                | openai => lit "gpt-3.5-turbo"
                | deepseek => lit "deepseek-chat"
                end |} |}, t).
Proof.
  intros Hprefix Hlen Hall.
  assert (validateApiKey (prefix ++ rest) = true) as Hvalid.
  { apply validateApiKey_shape. exists rest.
    destruct Hprefix as [-> | ->]; auto. }
  unfold createAIService, new_AIService. rewrite Hvalid.
  destruct provider; reflexivity.
Qed.

(** ** Buffered completion *)

Section ServiceProperties.

Context {platform : Platform}.

Lemma rethrow_classified_throws {A} e t :
  exists err, rethrow_classified (A := A) e t = (inl err, t).
Proof.
  unfold rethrow_classified. destruct e as [name message | e].
  - eexists; reflexivity.
  - destruct (code_is e "ECONNABORTED"); [eexists; reflexivity|].
    destruct (status_is e 401); [eexists; reflexivity|].
    destruct (status_is e 429); eexists; reflexivity.
Qed.

Lemma rethrow_classified_trace e t :
  rethrow_classified (A := JSValue) e t
  = (fst (rethrow_classified (A := JSValue) e []), t).
Proof.
  unfold rethrow_classified. destruct e as [name message | e]; [reflexivity|].
  destruct (code_is e "ECONNABORTED"); [reflexivity|].
  destruct (status_is e 401); [reflexivity|].
  destruct (status_is e 429); reflexivity.
Qed.

(** A prompt with something to read sends exactly one request, whatever the
    outcome. *)
Lemma generateResponse_sends self prompt t :
  ~ blank prompt ->
  let req := chat_request (config self) prompt false in
  generateResponse self prompt t = (settled (axios_post t req), t ++ [Sent req]).
Proof.
  intros H req. unfold generateResponse.
  rewrite (visible_prompt_truthy _ H). simpl.
  unfold try_catch, bind, do_post. fold req.
  destruct (axios_post t req) as [r | e]; simpl.
  - destruct (message_content (data r)); reflexivity.
  - apply rethrow_classified_trace.
Qed.

(** C9.  A prompt that is empty or has nothing but white space is answered
    with the fixed text, returned and not thrown, and the trace is left as it
    was: no request is sent. *)
Theorem blank_prompt_is_answered_locally self prompt t :
  blank prompt ->
  generateResponse self prompt t
  = (inr (JStr (lit "No content to analyze. Please provide input.")), t).
Proof.
  intros H. unfold generateResponse. rewrite (blank_prompt_falsy _ H).
  reflexivity.
Qed.

(** C8, as the code has it.  A prompt with something to read sends one
    request, and every way the request can fail reaches the caller as a
    thrown [Error]; its message tells the causes apart as far as the code
    does: a timeout, HTTP 401 and HTTP 429 have a message each, every other
    axios error carries the provider's message (or axios' own) behind
    "API error: ", and anything else, a response without
    [choices[0].message] included, is reported as a failure to connect. *)
Theorem failures_are_rethrown self prompt t :
  ~ blank prompt ->
  let req := chat_request (config self) prompt false in
  let outcome := fst (generateResponse self prompt t) in
  snd (generateResponse self prompt t) = t ++ [Sent req]
  /\ (forall e, axios_post t req = PostRejects e -> exists err, outcome = inl err)
  /\ (forall e, axios_post t req = PostRejects (AxiosFailure e) ->
        code e = Some (lit "ECONNABORTED") ->
        outcome = inl (new_Error "Request timed out. Please try again."))
  /\ (forall e r, axios_post t req = PostRejects (AxiosFailure e) ->
        code_is e "ECONNABORTED" = false -> response e = Some r ->
        status r = 401%N ->
        outcome = inl (new_Error
                    "Invalid API key. Please check your API key and try again."))
  /\ (forall e r, axios_post t req = PostRejects (AxiosFailure e) ->
        code_is e "ECONNABORTED" = false -> response e = Some r ->
        status r = 429%N ->
        outcome = inl (new_Error
                    "Rate limit exceeded. Please try again in a few moments."))
  /\ (forall e, axios_post t req = PostRejects (AxiosFailure e) ->
        code_is e "ECONNABORTED" = false ->
        status_is e 401 = false -> status_is e 429 = false ->
        outcome = inl (JSError (lit "Error")
                    (lit "API error: "
                     ++ ToString (js_or (provider_message e)
                                        (JStr (axios_message e))))))
  /\ (forall name message, axios_post t req = PostRejects (JSError name message) ->
        outcome = inl (new_Error "Failed to connect to API. Please try again."))
  /\ (forall r, axios_post t req = PostResolves r ->
        message_content (data r) = None ->
        outcome = inl (new_Error "Failed to connect to API. Please try again.")).
Proof.
  intros Hprompt req outcome. subst outcome.
  rewrite (generateResponse_sends self prompt t Hprompt). fold req. simpl.
  split; [reflexivity|].
  split.
  { intros e ->. unfold settled.
    destruct (rethrow_classified_throws (A := JSValue) e []) as [err Herr].
    rewrite Herr. exists err. reflexivity. }
  unfold settled, rethrow_classified, status_is, code_is.
  repeat split.
  - intros e -> ->. rewrite str_eqb_refl. reflexivity.
  - intros e r -> -> -> ->. reflexivity.
  - intros e r -> -> -> ->. reflexivity.
  - intros e -> -> -> ->. reflexivity.
  - intros name message ->. reflexivity.
  - intros r -> ->. reflexivity.
Qed.

(** ** Streaming: lines and frames *)

Lemma chunks_delivered_app t1 t2 :
  chunks_delivered (t1 ++ t2) = chunks_delivered t1 ++ chunks_delivered t2.
Proof. apply flat_map_app. Qed.

Lemma requests_app t1 t2 : requests (t1 ++ t2) = requests t1 ++ requests t2.
Proof. apply flat_map_app. Qed.

Lemma process_line_run line t :
  process_line line t = (inr tt, t ++ line_events line).
Proof.
  unfold line_events, process_line.
  destruct (startsWith line (lit "data: ")
            && negb (str_eqb line (lit "data: [DONE]")));
    [|unfold ret; simpl; rewrite app_nil_r; reflexivity].
  destruct (JSON_parse (slice 6 line)) as [json|]; [|reflexivity].
  destruct (delta_content json) as [content|]; [|reflexivity].
  destruct (truthy content); [reflexivity|].
  unfold ret; simpl; rewrite app_nil_r; reflexivity.
Qed.

Lemma line_events_chunks line : chunks_delivered (line_events line) = line_delta line.
Proof.
  unfold line_events, process_line, line_delta, decoded_delta, DATA, TERMINAL.
  destruct (startsWith line (lit "data: ")
            && negb (str_eqb line (lit "data: [DONE]"))); [|reflexivity].
  destruct (JSON_parse (slice 6 line)) as [json|]; [|reflexivity].
  destruct (delta_content json) as [content|]; [|reflexivity].
  destruct (truthy content); reflexivity.
Qed.

Lemma line_events_requests line : requests (line_events line) = [].
Proof.
  unfold line_events, process_line.
  destruct (startsWith line (lit "data: ")
            && negb (str_eqb line (lit "data: [DONE]"))); [|reflexivity].
  destruct (JSON_parse (slice 6 line)) as [json|]; [|reflexivity].
  destruct (delta_content json) as [content|]; [|reflexivity].
  destruct (truthy content); reflexivity.
Qed.

Lemma for_of_process_line lines : forall t,
  for_of lines process_line t = (inr tt, t ++ flat_map line_events lines).
Proof.
  induction lines as [|line lines IH]; intros t; simpl.
  - unfold ret. rewrite app_nil_r. reflexivity.
  - unfold bind. rewrite process_line_run, IH, app_assoc. reflexivity.
Qed.

Lemma chunks_of_lines lines :
  chunks_delivered (flat_map line_events lines) = flat_map line_delta lines.
Proof.
  induction lines as [|line lines IH]; simpl; [reflexivity|].
  rewrite chunks_delivered_app, line_events_chunks, IH. reflexivity.
Qed.

Lemma requests_of_lines lines : requests (flat_map line_events lines) = [].
Proof.
  induction lines as [|line lines IH]; simpl; [reflexivity|].
  rewrite requests_app, line_events_requests, IH. reflexivity.
Qed.

Lemma pop_snoc {A} (front : list A) (last : A) :
  pop (front ++ [last]) = (Some last, front).
Proof.
  unfold pop. rewrite rev_app_distr. simpl. rewrite rev_involutive. reflexivity.
Qed.

(** Splitting can be resumed: the last piece of a split has no separator,
    and whatever is appended to the text only extends that piece. *)
Lemma split_on_resume sep s :
  exists front last,
    split_on sep s = front ++ [last]
    /\ ~ In sep last
    /\ forall rest, split_on sep (s ++ rest) = front ++ split_on sep (last ++ rest).
Proof.
  induction s as [|c s (front & last & Hsplit & Hlast & Hrest)].
  - exists [], []. simpl. auto.
  - simpl. destruct (c =? sep)%N eqn:E.
    + exists ([] :: front), last. rewrite Hsplit. repeat split; auto.
      intros rest. rewrite Hrest. reflexivity.
    + destruct front as [|f fs].
      * exists [], (c :: last). rewrite Hsplit. simpl. repeat split.
        -- intros [H|H]; [|contradiction]. subst. rewrite N.eqb_refl in E.
           discriminate.
        -- intros rest. rewrite Hrest, E. reflexivity.
      * exists ((c :: f) :: fs), last. rewrite Hsplit. simpl. repeat split; auto.
        intros rest. rewrite Hrest. reflexivity.
Qed.

Lemma split_on_no_sep sep s : ~ In sep s -> split_on sep s = [s].
Proof.
  induction s as [|c s IH]; simpl; intros H; [reflexivity|].
  destruct (c =? sep)%N eqn:E.
  - apply N.eqb_eq in E. exfalso. auto.
  - rewrite IH; auto.
Qed.

Lemma split_on_line sep line rest :
  ~ In sep line -> split_on sep (line ++ sep :: rest) = line :: split_on sep rest.
Proof.
  induction line as [|c line IH]; simpl; intros H.
  - rewrite N.eqb_refl. reflexivity.
  - destruct (c =? sep)%N eqn:E.
    + apply N.eqb_eq in E. exfalso. auto.
    + rewrite IH; auto.
Qed.

Lemma split_stream_text lines :
  Forall (fun line => ~ In LF line) lines ->
  split_on LF (stream_text lines) = lines ++ [[]].
Proof.
  unfold stream_text. induction 1 as [|line lines Hline _ IH]; simpl.
  - reflexivity.
  - rewrite <- app_assoc. simpl. rewrite split_on_line, IH; auto.
Qed.

Lemma complete_lines_stream_text lines :
  Forall (fun line => ~ In LF line) lines ->
  complete_lines (stream_text lines) = lines.
Proof.
  intros H. unfold complete_lines. rewrite split_stream_text, pop_snoc; auto.
Qed.

Lemma complete_lines_resume s rest :
  exists last,
    ~ In LF last
    /\ pop (split_on LF s) = (Some last, complete_lines s)
    /\ complete_lines (s ++ rest) = complete_lines s ++ complete_lines (last ++ rest).
Proof.
  destruct (split_on_resume LF s) as (front & last & Hsplit & Hlast & Hrest).
  exists last. unfold complete_lines. rewrite Hsplit, pop_snoc. simpl.
  repeat split; auto.
  rewrite Hrest.
  destruct (split_on_resume LF (last ++ rest)) as (front' & last' & -> & _ & _).
  rewrite app_assoc, !pop_snoc. reflexivity.
Qed.

(** The loop hands to [process_line] the complete lines of everything that
    is read, however the transport cuts the text into reads. *)
Lemma read_loop_run reads : forall buffer t,
  ~ In LF buffer ->
  read_loop (map ReadValue reads) buffer t
  = (inr tt,
     t ++ flat_map line_events (complete_lines (buffer ++ List.concat reads))).
Proof.
  induction reads as [|value reads IH]; intros buffer t Hbuffer; simpl.
  - rewrite app_nil_r. unfold complete_lines.
    rewrite split_on_no_sep by assumption. unfold ret. simpl.
    rewrite app_nil_r. reflexivity.
  - rewrite app_assoc.
    destruct (complete_lines_resume (buffer ++ value) (List.concat reads))
      as (last & Hlast & Hpop & ->).
    rewrite Hpop. unfold bind. rewrite for_of_process_line.
    destruct last as [|c last]; rewrite IH by assumption;
      rewrite flat_map_app, app_assoc; reflexivity.
Qed.

(** A stream that is accepted is read to its end; the call then resolves
    with [undefined]. *)
Lemma generateStreamingResponse_streams self prompt t r reads :
  let req := chat_request (config self) prompt true in
  fetch t req = FetchResolves r ->
  ok r = true ->
  body_reader r = Some (map ReadValue reads) ->
  generateStreamingResponse self prompt t
  = (inr JUndefined,
     (t ++ [Sent req]) ++ flat_map line_events (complete_lines (List.concat reads))).
Proof.
  intros req Hfetch Hok Hreader.
  unfold generateStreamingResponse, try_catch, bind, do_fetch. fold req.
  rewrite Hfetch, Hok, Hreader. simpl.
  rewrite read_loop_run by (simpl; tauto). reflexivity.
Qed.

Lemma TERMINAL_is_DATA_DONE : TERMINAL = DATA ++ lit "[DONE]".
Proof. reflexivity. Qed.

Lemma line_delta_data payload :
  payload <> lit "[DONE]" -> line_delta (DATA ++ payload) = decoded_delta payload.
Proof.
  intros H. unfold line_delta. rewrite startsWith_app.
  rewrite str_eqb_neq.
  - cbn [negb andb]. change 6 with (List.length DATA).
    rewrite slice_app. reflexivity.
  - rewrite TERMINAL_is_DATA_DONE. intros E. apply app_inv_head in E. auto.
Qed.

Lemma line_delta_TERMINAL : line_delta TERMINAL = [].
Proof. unfold line_delta. rewrite str_eqb_refl, andb_false_r. reflexivity. Qed.

Lemma gap_delivers_nothing gap :
  Forall between_frames gap -> flat_map line_delta gap = [].
Proof.
  induction 1 as [|line gap [Hline _] _ IH]; cbn [flat_map]; [reflexivity|].
  unfold line_delta at 1. rewrite Hline, IH. reflexivity.
Qed.

Lemma frame_lines_delta gap payloads :
  Forall between_frames gap ->
  Forall (fun p => p <> lit "[DONE]") payloads ->
  flat_map line_delta (frame_lines gap payloads) = flat_map decoded_delta payloads.
Proof.
  intros Hgap. unfold frame_lines.
  induction 1 as [|p payloads Hp _ IH]; cbn [flat_map]; [reflexivity|].
  rewrite flat_map_app. cbn [flat_map].
  rewrite line_delta_data, (gap_delivers_nothing gap), IH, app_nil_r
    by assumption.
  reflexivity.
Qed.

Lemma frame_lines_app gap before after :
  frame_lines gap (before ++ after)
  = frame_lines gap before ++ frame_lines gap after.
Proof. apply flat_map_app. Qed.

Lemma frame_lines_cons gap payload payloads :
  frame_lines gap (payload :: payloads)
  = (DATA ++ payload) :: gap ++ frame_lines gap payloads.
Proof. reflexivity. Qed.

Lemma DATA_no_LF payload : ~ In LF payload -> ~ In LF (DATA ++ payload).
Proof.
  intros Hp Hin. apply in_app_or in Hin as [Hin|Hin]; [|auto].
  revert Hin. clear. vm_compute. intuition discriminate.
Qed.

Lemma gap_no_LF gap :
  Forall between_frames gap -> Forall (fun line => ~ In LF line) gap.
Proof. apply Forall_impl. intros line [_ H]. exact H. Qed.

Lemma frame_lines_no_LF gap payloads :
  Forall between_frames gap ->
  Forall (fun p => ~ In LF p) payloads ->
  Forall (fun line => ~ In LF line) (frame_lines gap payloads).
Proof.
  intros Hgap. unfold frame_lines.
  induction 1 as [|p payloads Hp _ IH]; cbn [flat_map]; [constructor|].
  constructor; [apply DATA_no_LF; assumption|].
  apply Forall_app. split; [apply gap_no_LF|]; assumption.
Qed.

Lemma TERMINAL_no_LF : ~ In LF TERMINAL.
Proof. vm_compute. intuition discriminate. Qed.

(** C1, as the code has it.  When the transport carries the frames
    [f1 .. fn] and then the terminal line, cut into reads in any way,
    [onChunk] is called with the decoded deltas of [f1 .. fn] and with
    nothing else, in that order, and one request is sent; the call then
    resolves with [undefined]: the text is accumulated by the callback of
    the caller, not by the service. *)
Theorem streaming_delivers_deltas_in_order self prompt t r reads gap frames :
  let req := chat_request (config self) prompt true in
  fetch t req = FetchResolves r ->
  ok r = true ->
  body_reader r = Some (map ReadValue reads) ->
  Forall between_frames gap ->
  Forall (fun payload => ~ In LF payload) frames ->
  Forall (fun payload => payload <> lit "[DONE]") frames ->
  List.concat reads = stream_text (frame_lines gap frames ++ TERMINAL :: gap) ->
  let run := generateStreamingResponse self prompt t in
  fst run = inr JUndefined
  /\ chunks_delivered (snd run)
     = chunks_delivered t ++ flat_map decoded_delta frames
  /\ requests (snd run) = requests t ++ [req].
Proof.
  intros req Hfetch Hok Hreader Hgap Hlines Hdata Htext run. subst run.
  rewrite (generateStreamingResponse_streams self prompt t r reads Hfetch Hok Hreader).
  fold req. cbn [fst snd]. rewrite Htext, complete_lines_stream_text.
  - split; [reflexivity|].
    rewrite !chunks_delivered_app, !requests_app, chunks_of_lines,
      requests_of_lines, flat_map_app, frame_lines_delta by assumption.
    cbn [flat_map].
    rewrite line_delta_TERMINAL, (gap_delivers_nothing gap), !app_nil_r
      by assumption.
    auto.
  - apply Forall_app. split; [apply frame_lines_no_LF; assumption|].
    constructor; [apply TERMINAL_no_LF | apply gap_no_LF; assumption].
Qed.

(** C5, as the code has it.  The terminal line is neither decoded nor
    delivered and raises nothing, but it does not end the stream either:
    the loop runs until the transport is done, the lines that follow the
    terminal line are processed like those before it, and the call resolves
    normally. *)
Theorem terminal_line_is_skipped self prompt t r reads before after :
  let req := chat_request (config self) prompt true in
  fetch t req = FetchResolves r ->
  ok r = true ->
  body_reader r = Some (map ReadValue reads) ->
  Forall (fun line => ~ In LF line) (before ++ after) ->
  List.concat reads = stream_text (before ++ TERMINAL :: after) ->
  let run := generateStreamingResponse self prompt t in
  fst run = inr JUndefined
  /\ chunks_delivered (snd run)
     = chunks_delivered t ++ flat_map line_delta before ++ flat_map line_delta after.
Proof.
  intros req Hfetch Hok Hreader Hlines Htext run. subst run.
  rewrite (generateStreamingResponse_streams self prompt t r reads Hfetch Hok Hreader).
  fold req. cbn [fst snd]. rewrite Htext, complete_lines_stream_text.
  - split; [reflexivity|].
    rewrite !chunks_delivered_app, chunks_of_lines, flat_map_app.
    cbn [flat_map]. rewrite line_delta_TERMINAL.
    cbn [chunks_delivered flat_map app]. rewrite app_nil_r. reflexivity.
  - apply Forall_app in Hlines as [Hbefore Hafter].
    apply Forall_app. split; [assumption|].
    constructor; [apply TERMINAL_no_LF | assumption].
Qed.

(** A valid frame is decoded to the text it carries. *)
Lemma carries_decoded payload text :
  carries payload text -> decoded_delta payload = [JStr text].
Proof.
  intros (fields & choice & others & delta & Hparse & Hchoices & Hdelta
          & Hcontent & Htext).
  unfold decoded_delta, delta_content. rewrite Hparse.
  cbn [get get0 get_opt hd]. rewrite Hchoices.
  cbn [get get0 get_opt hd]. rewrite Hdelta.
  cbn [get get0 get_opt hd]. rewrite Hcontent.
  destruct text; [contradiction | reflexivity].
Qed.

Lemma valid_frames_decoded payloads texts :
  Forall2 carries payloads texts ->
  flat_map decoded_delta payloads = map JStr texts.
Proof.
  induction 1 as [|payload text payloads texts Hcarries _ IH];
    cbn [flat_map map]; [reflexivity|].
  rewrite (carries_decoded payload text Hcarries), IH. reflexivity.
Qed.

(** C6.  A frame whose payload cannot be parsed makes no call of
    [onChunk] and does not end the stream: the call resolves normally, and
    the deltas of the frames before it and of the frames after it are all
    delivered, in order.  In particular, when the frames before and after
    it are valid frames, [onChunk] is called with exactly the texts they
    carry, those of the frames after the malformed one included. *)
Theorem malformed_frame_is_skipped self prompt t r reads gap before bad after :
  let req := chat_request (config self) prompt true in
  fetch t req = FetchResolves r ->
  ok r = true ->
  body_reader r = Some (map ReadValue reads) ->
  Forall between_frames gap ->
  Forall (fun payload => ~ In LF payload) (before ++ bad :: after) ->
  Forall (fun payload => payload <> lit "[DONE]") (before ++ after) ->
  JSON_parse bad = None ->
  List.concat reads = stream_text (frame_lines gap (before ++ bad :: after)) ->
  let run := generateStreamingResponse self prompt t in
  fst run = inr JUndefined
  /\ chunks_delivered (snd run)
     = chunks_delivered t
       ++ flat_map decoded_delta before ++ flat_map decoded_delta after
  /\ (forall texts_before texts_after,
        Forall2 carries before texts_before ->
        Forall2 carries after texts_after ->
        chunks_delivered (snd run)
        = chunks_delivered t ++ map JStr texts_before ++ map JStr texts_after).
Proof.
  intros req Hfetch Hok Hreader Hgap Hlines Hdata Hbad Htext run. subst run.
  rewrite (generateStreamingResponse_streams self prompt t r reads Hfetch Hok Hreader).
  fold req. cbn [fst snd].
  rewrite Htext, complete_lines_stream_text
    by (apply frame_lines_no_LF; assumption).
  split; [reflexivity|].
  apply Forall_app in Hdata as [Hbefore Hafter].
  assert (chunks_delivered
            ((t ++ [Sent req])
             ++ flat_map line_events (frame_lines gap (before ++ bad :: after)))
          = chunks_delivered t
            ++ flat_map decoded_delta before ++ flat_map decoded_delta after)
    as Hdelivered.
  { rewrite !chunks_delivered_app, chunks_of_lines.
    rewrite frame_lines_app, frame_lines_cons, flat_map_app.
    cbn [flat_map]. rewrite flat_map_app.
    rewrite !frame_lines_delta, (gap_delivers_nothing gap) by assumption.
    assert (line_delta (DATA ++ bad) = []) as ->;
      [|cbn [chunks_delivered flat_map app]; rewrite app_nil_r; reflexivity].
    unfold line_delta. rewrite startsWith_app.
    change 6 with (List.length DATA). rewrite slice_app.
    unfold decoded_delta. rewrite Hbad.
    destruct (negb _); reflexivity. }
  split; [exact Hdelivered|].
  intros texts_before texts_after Hvalid_before Hvalid_after.
  rewrite Hdelivered.
  rewrite (valid_frames_decoded before texts_before Hvalid_before).
  rewrite (valid_frames_decoded after texts_after Hvalid_after).
  reflexivity.
Qed.

End ServiceProperties.

(** ** Splitting and summarizing documents *)

Lemma splitDocument_concat D B : 0 < B -> List.concat (splitDocument D B) = D.
Proof.
  funelim (splitDocument D B); intros HB; simp splitDocument.
  - reflexivity.
  - inversion HB.
  - cbn [List.concat]. rewrite H by assumption.
    unfold slice_to, slice. apply firstn_skipn.
Qed.

Lemma splitDocument_bounded D B :
  0 < B -> Forall (fun chunk => 0 < List.length chunk <= B) (splitDocument D B).
Proof.
  funelim (splitDocument D B); intros HB; simp splitDocument.
  - constructor.
  - constructor.
  - constructor; [|apply H; assumption].
    unfold slice_to. rewrite length_firstn. simpl. lia.
Qed.

(** C2.  For every document and every positive budget, the chunks of the
    split, concatenated in order, are the document again; no chunk is empty
    or longer than the budget; and the split of equal inputs is equal. *)
Theorem split_round_trip D B :
  0 < B ->
  List.concat (splitDocument D B) = D
  /\ Forall (fun chunk => 0 < List.length chunk <= B) (splitDocument D B)
  /\ (forall D' B', D' = D -> B' = B -> splitDocument D' B' = splitDocument D B).
Proof.
  intros HB. split; [apply splitDocument_concat; assumption|].
  split; [apply splitDocument_bounded; assumption|].
  intros D' B' -> ->. reflexivity.
Qed.

Section SummaryProperties.

Context {platform : Platform}.

Lemma summary_prompt_visible chunk : ~ blank (SUMMARY_PROMPT ++ chunk).
Proof. apply (visible_head 80%N). reflexivity. Qed.

Lemma merge_prompt_visible joined : ~ blank (MERGE_PROMPT ++ joined).
Proof. apply (visible_head 80%N). reflexivity. Qed.

(** One request per chunk is sent, in the order of the chunks, whether or
    not the calls succeed. *)
Lemma summaries_sent self chunks : forall t,
  snd (promise_all
         (map (fun chunk => generateResponse self (SUMMARY_PROMPT ++ chunk)) chunks)
         t)
  = t ++ map (fun chunk => Sent (summary_request self chunk)) chunks.
Proof.
  induction chunks as [|chunk chunks IH]; intros t; cbn [map promise_all].
  - unfold ret. simpl. rewrite app_nil_r. reflexivity.
  - rewrite (generateResponse_sends self _ t (summary_prompt_visible chunk)).
    cbv zeta. specialize (IH (t ++ [Sent (summary_request self chunk)])).
    unfold summary_request in *.
    destruct (promise_all _ _) as [rs t2]. simpl in IH. subst t2.
    simpl. rewrite <- app_assoc. reflexivity.
Qed.

(** The results keep the order of the chunks: the summary at an index is the
    answer to the request of the chunk at that index. *)
Lemma summaries_in_order self chunks : forall t summaries t1,
  promise_all
    (map (fun chunk => generateResponse self (SUMMARY_PROMPT ++ chunk)) chunks) t
  = (inr summaries, t1) ->
  forall i chunk, nth_error chunks i = Some chunk ->
  exists summary,
    nth_error summaries i = Some summary
    /\ settled (axios_post
                  (t ++ map (fun c => Sent (summary_request self c)) (firstn i chunks))
                  (summary_request self chunk))
       = inr summary.
Proof.
  induction chunks as [|c chunks IH]; intros t summaries t1 Hall i chunk Hi.
  - destruct i; discriminate.
  - cbn [map promise_all] in Hall.
    rewrite (generateResponse_sends self _ t (summary_prompt_visible c)) in Hall.
    cbv zeta in Hall. fold (summary_request self c) in Hall.
    destruct (promise_all _ _) as [rs t2] eqn:Hrest.
    destruct (settled _) as [e|s] eqn:Hs; [discriminate|].
    destruct rs as [e|ss]; [discriminate|].
    injection Hall as <- <-.
    destruct i as [|i]; simpl in Hi.
    + injection Hi as <-. exists s. simpl. rewrite app_nil_r. auto.
    + destruct (IH _ _ _ Hrest i chunk Hi) as (summary & Hnth & Hsettled).
      exists summary. split; [exact Hnth|].
      simpl. rewrite <- app_assoc in Hsettled. exact Hsettled.
Qed.

(** C3, as the code has it.  The summaries of the chunks, one request per
    chunk and in the order of the chunks, are joined with a blank line
    between them.  If the joined text is longer than 4000 characters, one
    more request is sent, the merge request that carries the joined text, and
    its outcome is the outcome of the call; otherwise no further request is
    sent and the joined text is returned. *)
Theorem merge_threshold self text t summaries t1 :
  promise_all
    (map (fun chunk => generateResponse self (SUMMARY_PROMPT ++ chunk))
         (chunkText text)) t
  = (inr summaries, t1) ->
  let joined := array_join [LF; LF] summaries in
  let merge := chat_request (config self) (MERGE_PROMPT ++ joined) false in
  t1 = t ++ map (fun chunk => Sent (summary_request self chunk)) (chunkText text)
  /\ (forall i chunk, nth_error (chunkText text) i = Some chunk ->
        exists summary,
          nth_error summaries i = Some summary
          /\ settled (axios_post
                        (t ++ map (fun c => Sent (summary_request self c))
                                  (firstn i (chunkText text)))
                        (summary_request self chunk))
             = inr summary)
  /\ (4000 < List.length joined ->
        generateSummary self text t
        = (settled (axios_post t1 merge), t1 ++ [Sent merge]))
  /\ (List.length joined <= 4000 ->
        generateSummary self text t = (inr (JStr joined), t1)).
Proof.
  intros Hall joined merge.
  split.
  { rewrite <- summaries_sent, Hall. reflexivity. }
  split.
  { apply (summaries_in_order self _ t summaries t1 Hall). }
  unfold generateSummary, bind. rewrite Hall. fold joined.
  split; intros Hlen.
  - apply Nat.ltb_lt in Hlen. rewrite Hlen.
    apply (generateResponse_sends self _ t1 (merge_prompt_visible joined)).
  - apply Nat.ltb_ge in Hlen. rewrite Hlen. reflexivity.
Qed.

Lemma splitDocument_step c text B :
  splitDocument (c :: text) (S B)
  = slice_to (S B) (c :: text) :: splitDocument (slice (S B) (c :: text)) (S B).
Proof. simp splitDocument. reflexivity. Qed.

(** A document of more than two budgets and at most three is cut in three. *)
Lemma splitDocument_three text B :
  2 * B < List.length text <= 3 * B ->
  splitDocument text B
  = [slice_to B text; slice_to B (slice B text); slice (2 * B) text]
    /\ map (@List.length _) (splitDocument text B)
       = [B; B; List.length text - 2 * B].
Proof.
  intros Hlen. destruct B as [|b]; [lia|].
  assert (forall n (l : jsstring), n < List.length l -> exists c l', l = c :: l')
    as Hcons by (intros n [|c l'] H; [simpl in H; lia | eauto]).
  assert (List.length (slice (S b) text) = List.length text - S b) as H1
    by apply length_skipn.
  assert (List.length (slice (S b) (slice (S b) text)) = List.length text - 2 * S b)
    as H2 by (unfold slice in *; rewrite !length_skipn; lia).
  assert (slice (S b) (slice (S b) text) = slice (2 * S b) text) as Hslice.
  { unfold slice. rewrite skipn_skipn. f_equal. lia. }
  destruct (Hcons 0 text) as (c0 & l0 & E0); [lia|].
  destruct (Hcons 0 (slice (S b) text)) as (c1 & l1 & E1); [lia|].
  destruct (Hcons 0 (slice (S b) (slice (S b) text))) as (c2 & l2 & E2); [lia|].
  assert (splitDocument text (S b)
          = [slice_to (S b) text; slice_to (S b) (slice (S b) text);
             slice (2 * S b) text]) as Hsplit.
  { rewrite E0 at 1. rewrite splitDocument_step, <- E0.
    rewrite E1 at 1. rewrite splitDocument_step, <- E1.
    rewrite E2 at 1. rewrite splitDocument_step, <- E2.
    assert (slice (S b) (slice (S b) (slice (S b) text)) = []) as ->.
    { apply length_zero_iff_nil. unfold slice in *. rewrite length_skipn. lia. }
    simp splitDocument.
    assert (slice_to (S b) (slice (S b) (slice (S b) text))
            = slice (S b) (slice (S b) text)) as ->.
    { unfold slice_to. apply firstn_all2. lia. }
    rewrite Hslice. reflexivity. }
  split; [exact Hsplit|].
  rewrite Hsplit. cbn [map]. unfold slice_to.
  rewrite !length_firstn, <- Hslice, H2, H1.
  repeat f_equal; lia.
Qed.

Lemma array_join_strings sep summaries :
  array_join sep (map JStr summaries) = join sep summaries.
Proof.
  unfold array_join. rewrite map_map. f_equal.
  rewrite <- (map_id summaries) at 2. apply map_ext. reflexivity.
Qed.

(** C4, as the code has it.  A document of 9,000 characters is split on the
    budget of 4,000 into chunks of 4000, 4000 and 1000 characters; when each
    request is answered with a summary of 50 characters, three requests are
    sent, one per chunk and in the order of the chunks, and no merge
    request; the result is the three summaries the requests returned, in
    the order of the chunks, with a blank line between them, 154 characters
    in all.  [answer t' req] is the summary the provider returns for the
    request [req] when the requests of [t'] have been sent. *)
Theorem example_scenario self text t (answer : Trace -> Request -> jsstring) :
  List.length text = 9000 ->
  chunkText text = splitDocument text 4000 ->
  (forall t' req, exists r,
      axios_post t' req = PostResolves r
      /\ message_content (data r) = Some (JStr (answer t' req))
      /\ List.length (answer t' req) = 50) ->
  let chunk1 := slice_to 4000 text in
  let chunk2 := slice_to 4000 (slice 4000 text) in
  let chunk3 := slice (2 * 4000) text in
  let request1 := summary_request self chunk1 in
  let request2 := summary_request self chunk2 in
  let request3 := summary_request self chunk3 in
  let summary1 := answer t request1 in
  let summary2 := answer (t ++ [Sent request1]) request2 in
  let summary3 := answer (t ++ [Sent request1; Sent request2]) request3 in
  let result := summary1 ++ [LF; LF] ++ summary2 ++ [LF; LF] ++ summary3 in
  let run := generateSummary self text t in
  chunkText text = [chunk1; chunk2; chunk3]
  /\ map (@List.length _) (chunkText text) = [4000; 4000; 1000]
  /\ snd run = t ++ [Sent request1; Sent request2; Sent request3]
  /\ fst run = inr (JStr result)
  /\ List.length result = 154.
Proof.
  intros Hlen Hchunk Hpost chunk1 chunk2 chunk3 request1 request2 request3
         summary1 summary2 summary3 result run.
  assert (2 * 4000 < List.length text <= 3 * 4000) as Hrange.
  { rewrite Hlen. split; [apply Nat.ltb_lt | apply Nat.leb_le];
      vm_compute; reflexivity. }
  destruct (splitDocument_three text 4000 Hrange) as [Hsplit Hlengths].
  assert (List.length text - 2 * 4000 = 1000) as Hlast
    by (rewrite Hlen; vm_compute; reflexivity).
  fold chunk1 chunk2 chunk3 in Hsplit.
  assert (chunkText text = [chunk1; chunk2; chunk3]) as Hchunks
    by (rewrite Hchunk; exact Hsplit).
  split; [exact Hchunks|].
  split; [rewrite Hchunk, Hlengths, Hlast; reflexivity|].
  assert (forall t' req, settled (axios_post t' req) = inr (JStr (answer t' req)))
    as Hsettled.
  { intros t' req. destruct (Hpost t' req) as (r & -> & Hcontent & _).
    unfold settled. rewrite Hcontent. reflexivity. }
  assert (List.length result = 154) as Hresult.
  { subst result summary1 summary2 summary3.
    destruct (Hpost t request1) as (_ & _ & _ & H1).
    destruct (Hpost (t ++ [Sent request1]) request2) as (_ & _ & _ & H2).
    destruct (Hpost (t ++ [Sent request1; Sent request2]) request3)
      as (_ & _ & _ & H3).
    rewrite !length_app, H1, H2, H3. reflexivity. }
  assert (promise_all
            (map (fun chunk => generateResponse self (SUMMARY_PROMPT ++ chunk))
                 (chunkText text)) t
          = (inr (map JStr [summary1; summary2; summary3]),
             t ++ [Sent request1; Sent request2; Sent request3])) as Hall.
  { rewrite Hchunks. cbn [map promise_all].
    rewrite (generateResponse_sends self _ t (summary_prompt_visible chunk1)).
    cbv zeta. fold (summary_request self chunk1). fold request1.
    rewrite (generateResponse_sends self _ _ (summary_prompt_visible chunk2)).
    cbv zeta. fold (summary_request self chunk2). fold request2.
    rewrite (generateResponse_sends self _ _ (summary_prompt_visible chunk3)).
    cbv zeta. fold (summary_request self chunk3). fold request3.
    rewrite !Hsettled. unfold ret. rewrite <- !app_assoc. reflexivity. }
  subst run. unfold generateSummary, bind. rewrite Hall, array_join_strings.
  cbn [join]. fold result.
  assert ((4000 <? List.length result) = false)
    as -> by (rewrite Hresult; vm_compute; reflexivity).
  split; [reflexivity|]. split; [reflexivity | exact Hresult].
Qed.

End SummaryProperties.

(** * Examples *)

Ltac evaluate := vm_compute; repeat split; try reflexivity; try discriminate.

Ltac no_line_feed :=
  repeat constructor; vm_compute; intuition discriminate.

Ltac blank_line_between :=
  repeat constructor; vm_compute; intuition discriminate.

Ltac not_terminal :=
  repeat constructor; intros E; vm_compute in E; discriminate.

(** The theorem of C7 at a key of the recognized shape and at one that is
    too short. *)
Lemma credential_validation_witness :
  (exists service,
     createAIService (lit "sk-0123456789") None [] = (inr service, [])
     /\ apiKey (config service) = lit "sk-0123456789"
     /\ setApiKey (lit "sk-0123456789") None [] =
          (inr {| store_apiKey := Some (lit "sk-0123456789");
                  store_service := Some service;
                  store_error := None |}, []))
  /\ (createAIService (lit "sk-123") (Some deepseek) []
        = (inl (new_Error "Invalid API key format"), [])
      /\ setApiKey (lit "sk-123") (Some deepseek) [] =
           (inr {| store_apiKey := None;
                   store_service := None;
                   store_error := Some (lit "Invalid API key format") |}, [])).
Proof.
  split.
  - apply (proj1 (credential_validation (lit "sk-0123456789") None [])).
    apply validateApiKey_shape. vm_compute. reflexivity.
  - apply (proj2 (credential_validation (lit "sk-123") (Some deepseek) [])).
    apply validateApiKey_not_shape. vm_compute. reflexivity.
Defined.

(** The theorem of C10 at a [ds-] key used with the provider ['openai']. *)
Lemma provider_selects_endpoint_witness :
  createAIService (lit "ds-" ++ lit "abc_DEF-0123") (Some openai) [] =
    (inr {| config := {| baseURL := lit "https://api.openai.com/v1";
                         apiKey := lit "ds-" ++ lit "abc_DEF-0123";
                         model := lit "gpt-3.5-turbo" |} |}, []).
Proof.
  apply (provider_selects_endpoint (lit "ds-") (lit "abc_DEF-0123") openai []).
  - right. reflexivity.
  - vm_compute. lia.
  - repeat constructor.
Defined.

(** The theorem of C9 at a prompt of a space, a tab and a line feed. *)
Lemma blank_prompt_is_answered_locally_witness :
  generateResponse (platform := simulated [] offline) a_service [32; 9; 10]%N []
  = (inr (JStr (lit "No content to analyze. Please provide input.")), []).
Proof.
  apply (blank_prompt_is_answered_locally (platform := simulated [] offline)).
  repeat constructor.
Defined.

(** The theorem of C2 at a document of ten characters and a budget of 4. *)
Lemma split_round_trip_witness :
  splitDocument (lit "abcdefghij") 4 = [lit "abcd"; lit "efgh"; lit "ij"]
  /\ List.concat (splitDocument (lit "abcdefghij") 4) = lit "abcdefghij".
Proof.
  split; [reflexivity|].
  apply (split_round_trip (lit "abcdefghij") 4). lia.
Defined.

(** The theorem of C1 at the stream that spells "Hello" in two frames. *)
Lemma streaming_delivers_deltas_in_order_witness :
  let platform := simulated hello_reads offline in
  let run := generateStreamingResponse a_service (lit "Say hello") [] in
  fst run = inr JUndefined
  /\ chunks_delivered (snd run)
     = chunks_delivered [] ++ flat_map decoded_delta [frame_Hel; frame_lo]
  /\ requests (snd run)
     = requests [] ++ [chat_request (config a_service) (lit "Say hello") true].
Proof.
  apply (streaming_delivers_deltas_in_order
           (platform := simulated hello_reads offline)
           a_service (lit "Say hello") [] (streamed hello_reads) hello_reads
           [[]] [frame_Hel; frame_lo]).
  - reflexivity.
  - reflexivity.
  - reflexivity.
  - blank_line_between.
  - no_line_feed.
  - not_terminal.
  - vm_compute. reflexivity.
Defined.

(** C1 as stated fails on the same stream: both deltas are delivered, in
    order, and they spell "Hello", but the call resolves with [undefined]
    and not with that text. *)
Lemma streaming_returns_no_text :
  let platform := simulated hello_reads offline in
  let run := generateStreamingResponse a_service (lit "Say hello") [] in
  List.concat hello_reads
    = stream_text [DATA ++ frame_Hel; []; DATA ++ frame_lo; []; TERMINAL; []]
  /\ chunks_delivered (snd run) = [JStr (lit "Hel"); JStr (lit "lo")]
  /\ accumulated (chunks_delivered (snd run)) = lit "Hello"
  /\ fst run = inr JUndefined
  /\ fst run <> inr (JStr (accumulated (chunks_delivered (snd run)))).
Proof. evaluate. Qed.

(** The theorem of C5 at a stream with a frame behind the terminal line. *)
Lemma terminal_line_is_skipped_witness :
  let platform := simulated [stream_text late_lines] offline in
  let run := generateStreamingResponse a_service (lit "Say hello") [] in
  fst run = inr JUndefined
  /\ chunks_delivered (snd run)
     = chunks_delivered [] ++ flat_map line_delta [DATA ++ frame_Hel]
       ++ flat_map line_delta [DATA ++ frame_lo].
Proof.
  apply (terminal_line_is_skipped
           (platform := simulated [stream_text late_lines] offline)
           a_service (lit "Say hello") [] (streamed [stream_text late_lines])
           [stream_text late_lines] [DATA ++ frame_Hel] [DATA ++ frame_lo]).
  - reflexivity.
  - reflexivity.
  - reflexivity.
  - no_line_feed.
  - vm_compute. reflexivity.
Defined.

(** C5 as stated fails on that stream: the lines up to the terminal line
    carry the single delta "Hel", yet "lo", which comes after the terminal
    line, is delivered as well. *)
Lemma chunk_delivered_after_terminal :
  let platform := simulated [stream_text late_lines] offline in
  let run := generateStreamingResponse a_service (lit "Say hello") [] in
  late_lines = [DATA ++ frame_Hel; TERMINAL; DATA ++ frame_lo]
  /\ flat_map line_delta (until_terminal late_lines) = [JStr (lit "Hel")]
  /\ chunks_delivered (snd run) = [JStr (lit "Hel"); JStr (lit "lo")]
  /\ chunks_delivered (snd run) <> flat_map line_delta (until_terminal late_lines).
Proof. evaluate. Qed.

(** The theorem of C6 at a stream whose second frame is cut off: the call
    resolves, and [onChunk] gets "Hel" from the frame before the malformed
    one and "lo" from the frame after it. *)
Lemma malformed_frame_is_skipped_witness :
  let platform := simulated noisy_reads offline in
  let run := generateStreamingResponse a_service (lit "Say hello") [] in
  JSON_parse frame_cut = None
  /\ fst run = inr JUndefined
  /\ chunks_delivered (snd run) = [JStr (lit "Hel"); JStr (lit "lo")].
Proof.
  split; [vm_compute; reflexivity|].
  destruct (malformed_frame_is_skipped
              (platform := simulated noisy_reads offline)
              a_service (lit "Say hello") [] (streamed noisy_reads) noisy_reads
              [[]] [frame_Hel] frame_cut [frame_lo])
    as (Hresolves & _ & Hvalid).
  - reflexivity.
  - reflexivity.
  - reflexivity.
  - blank_line_between.
  - no_line_feed.
  - not_terminal.
  - vm_compute. reflexivity.
  - vm_compute. reflexivity.
  - split; [exact Hresolves|].
    apply (Hvalid [lit "Hel"] [lit "lo"]);
      (apply Forall2_cons; [|apply Forall2_nil]);
      (do 4 eexists; split; [vm_compute; reflexivity|];
       repeat split; try reflexivity; discriminate).
Defined.

(** The theorem of C8 at a request that finds no network. *)
Lemma failures_are_rethrown_witness :
  let platform := simulated [] offline in
  let run := generateResponse a_service (lit "Hello") [] in
  snd run = [Sent (chat_request (config a_service) (lit "Hello") false)]
  /\ fst run = inl (JSError (lit "Error") (lit "API error: Network Error")).
Proof.
  assert (~ blank (lit "Hello")) as Hprompt
    by (apply (visible_head 72%N); reflexivity).
  destruct (failures_are_rethrown (platform := simulated [] offline)
              a_service (lit "Hello") [] Hprompt)
    as (Htrace & _ & _ & _ & _ & Hother & _).
  split; [exact Htrace|].
  apply (Hother {| code := Some (lit "ERR_NETWORK");
                   response := None;
                   axios_message := lit "Network Error" |}); reflexivity.
Defined.

(** C8 as stated fails when the provider answers with a message that has
    no content: the response does not have the expected shape, which the
    specification classifies as Malformed, yet nothing is thrown and the
    caller gets [undefined]. *)
Lemma malformed_response_is_not_reported :
  let platform := simulated [] without_content in
  let req := chat_request (config a_service) (lit "Hello") false in
  failure_cause (axios_post [] req) = Some Malformed
  /\ generateResponse a_service (lit "Hello") [] = (inr JUndefined, [Sent req]).
Proof. evaluate. Qed.

(** The theorem of C3 at a document of two chunks, each summarized as "A". *)
Lemma merge_threshold_witness :
  let platform := simulated [] (always (lit "A")) in
  let run := generateSummary a_service document_4001 [] in
  fst run = inr (JStr (lit "A" ++ [LF; LF] ++ lit "A"))
  /\ List.length (requests (snd run)) = 2.
Proof.
  destruct (merge_threshold (platform := simulated [] (always (lit "A")))
              a_service document_4001 []
              [JStr (lit "A"); JStr (lit "A")]
              ([] ++ map (fun chunk => Sent (summary_request a_service chunk))
                         (chunkText_default document_4001)))
    as (_ & _ & _ & Hunder).
  - vm_compute. reflexivity.
  - cbv zeta. rewrite Hunder by (vm_compute; lia).
    split; vm_compute; reflexivity.
Defined.

(** C3 as stated fails on a document of three chunks, each summarized in
    1,333 characters: the summaries concatenate to 3,999 characters, under
    the budget of 4,000, yet a fourth request, the merge request, is sent,
    and its answer is returned in place of the concatenation. *)
Lemma merge_call_under_budget :
  let platform := simulated [] (always summary_1333) in
  let run := generateSummary a_service document_9000 [] in
  let joined := join [LF; LF] [summary_1333; summary_1333; summary_1333] in
  List.length (summary_1333 ++ summary_1333 ++ summary_1333) = 3999
  /\ List.length (requests (snd run)) = 4
  /\ nth_error (requests (snd run)) 3
     = Some (chat_request (config a_service) (MERGE_PROMPT ++ joined) false)
  /\ fst run <> inr (JStr (summary_1333 ++ summary_1333 ++ summary_1333)).
Proof. evaluate. Qed.

(** The theorem of C4 at a document of 9,000 letters and a provider that
    answers the requests in turn with 50 a's, 50 b's and 50 c's: the result
    is those three summaries, in that order. *)
Lemma example_scenario_witness :
  let platform := simulated [] in_turn in
  let run := generateSummary a_service document_9000 [] in
  map (@List.length _) (chunkText document_9000) = [4000; 4000; 1000]
  /\ List.length (requests (snd run)) = 3
  /\ fst run
     = inr (JStr (repeat 97%N 50 ++ [LF; LF] ++ repeat 98%N 50
                  ++ [LF; LF] ++ repeat 99%N 50)).
Proof.
  destruct (example_scenario (platform := simulated [] in_turn)
              a_service document_9000 [] in_turn_answer)
    as (_ & Hlengths & Hsent & Hresult & _).
  - vm_compute. reflexivity.
  - reflexivity.
  - intros t' req. eexists. split; [reflexivity|].
    split; [reflexivity | apply repeat_length].
  - split; [exact Hlengths|]. split; [|exact Hresult].
    cbv zeta. rewrite Hsent. reflexivity.
Defined.

(** C4 as stated fails in its own scenario: the chunks are as the claim has
    them and three requests are sent, but the result is the three summaries
    with two blank lines between them, 154 characters and not 150. *)
Lemma example_result_has_154_characters :
  let platform := simulated [] (always summary_50) in
  let run := generateSummary a_service document_9000 [] in
  let result := summary_50 ++ [LF; LF] ++ summary_50 ++ [LF; LF] ++ summary_50 in
  map (@List.length _) (chunkText document_9000) = [4000; 4000; 1000]
  /\ List.length (requests (snd run)) = 3
  /\ fst run = inr (JStr result)
  /\ List.length result = 154
  /\ List.length (summary_50 ++ summary_50 ++ summary_50) = 150
  /\ fst run <> inr (JStr (summary_50 ++ summary_50 ++ summary_50)).
Proof. evaluate. Qed.

(* ===================================================================== *)
(** * Further properties of the service *)
(* ===================================================================== *)

(** ** Streaming: what the loop does with any transport *)

Section StreamingFacts.

Context {platform : Platform}.

Lemma read_loop_requests reads : forall buffer t,
  requests (snd (read_loop reads buffer t)) = requests t.
Proof.
  induction reads as [|[value|e] reads IH]; intros buffer t; cbn [read_loop].
  - reflexivity.
  - destruct (pop (split_on LF (buffer ++ value))) as [last lines].
    unfold bind. rewrite for_of_process_line, IH, requests_app, requests_of_lines.
    apply app_nil_r.
  - reflexivity.
Qed.

(** A read that fails ends the loop: the complete lines read so far have
    been processed, nothing that follows is looked at. *)
Lemma read_loop_rejects before e rest : forall buffer t,
  ~ In LF buffer ->
  read_loop (map ReadValue before ++ ReadRejects e :: rest) buffer t
  = (inl e,
     t ++ flat_map line_events (complete_lines (buffer ++ List.concat before))).
Proof.
  induction before as [|value before IH]; intros buffer t Hbuffer;
    cbn [map app read_loop List.concat].
  - rewrite app_nil_r. unfold complete_lines, throw.
    rewrite split_on_no_sep by assumption. simpl. rewrite app_nil_r. reflexivity.
  - rewrite app_assoc.
    destruct (complete_lines_resume (buffer ++ value) (List.concat before))
      as (last & Hlast & Hpop & ->).
    rewrite Hpop. unfold bind. rewrite for_of_process_line.
    destruct last as [|c last]; rewrite IH by assumption;
      rewrite flat_map_app, app_assoc; reflexivity.
Qed.

Lemma split_partial lines tail :
  Forall (fun line => ~ In LF line) lines ->
  ~ In LF tail ->
  split_on LF (stream_text lines ++ tail) = lines ++ [tail].
Proof.
  intros Hlines Htail. unfold stream_text.
  induction Hlines as [|line lines Hline _ IH]; cbn [map List.concat app].
  - apply split_on_no_sep. assumption.
  - rewrite <- !app_assoc. cbn [app]. rewrite split_on_line, IH; auto.
Qed.

Lemma complete_lines_partial lines tail :
  Forall (fun line => ~ In LF line) lines ->
  ~ In LF tail ->
  complete_lines (stream_text lines ++ tail) = lines.
Proof.
  intros Hlines Htail. unfold complete_lines.
  rewrite split_partial, pop_snoc by assumption. reflexivity.
Qed.

(** X1.  Whatever the transport does (refuse the request, answer with an
    error, stream, break in the middle), a call of
    [generateStreamingResponse] sends one request and only one; a blank
    prompt is sent like any other. *)
Theorem streaming_sends_one_request self prompt t :
  requests (snd (generateStreamingResponse self prompt t))
  = requests t ++ [chat_request (config self) prompt true].
Proof.
  unfold generateStreamingResponse, try_catch, bind, do_fetch.
  set (req := chat_request (config self) prompt true).
  assert (requests (t ++ [Sent req]) = requests t ++ [req]) as Hsent
    by (rewrite requests_app; reflexivity).
  destruct (fetch t req) as [r|e].
  - destruct (ok r); cbn [negb].
    + destruct (body_reader r) as [reads|].
      * pose proof (read_loop_requests reads [] (t ++ [Sent req])) as Hloop.
        destruct (read_loop reads [] (t ++ [Sent req])) as [[e|[]] t'];
          cbn [snd] in Hloop.
        -- destruct e as [name message|e]; [destruct (str_eqb name _)|];
             cbn [snd throw]; congruence.
        -- cbn [snd ret]. congruence.
      * exact Hsent.
    + destruct (get _ (lit "error")) as [error|]; cbn; exact Hsent.
  - destruct e as [name message|e]; [destruct (str_eqb name _)|]; exact Hsent.
Qed.

(** X2.  A last line that the transport does not close with a line feed is
    dropped when the stream ends, also when it is a whole data-bearing
    line: only the lines that were closed are decoded and delivered. *)
Theorem unfinished_line_is_dropped self prompt t r reads lines tail :
  let req := chat_request (config self) prompt true in
  fetch t req = FetchResolves r ->
  ok r = true ->
  body_reader r = Some (map ReadValue reads) ->
  Forall (fun line => ~ In LF line) lines ->
  ~ In LF tail ->
  List.concat reads = stream_text lines ++ tail ->
  let run := generateStreamingResponse self prompt t in
  fst run = inr JUndefined
  /\ chunks_delivered (snd run) = chunks_delivered t ++ flat_map line_delta lines.
Proof.
  intros req Hfetch Hok Hreader Hlines Htail Htext run. subst run.
  rewrite (generateStreamingResponse_streams self prompt t r reads Hfetch Hok Hreader).
  fold req. cbn [fst snd]. rewrite Htext, complete_lines_partial by assumption.
  split; [reflexivity|].
  rewrite !chunks_delivered_app, chunks_of_lines.
  cbn [chunks_delivered flat_map app]. rewrite app_nil_r. reflexivity.
Qed.

(** X3.  When a read fails in the middle of the stream, the deltas of the
    lines completed before the failure have been delivered and stay
    delivered, nothing that the transport would have sent afterwards is
    delivered, and the call throws: the time-out error when the read was
    aborted, the error of the read otherwise. *)
Theorem failed_read_ends_the_stream self prompt t r before e rest lines tail :
  let req := chat_request (config self) prompt true in
  fetch t req = FetchResolves r ->
  ok r = true ->
  body_reader r = Some (map ReadValue before ++ ReadRejects e :: rest) ->
  Forall (fun line => ~ In LF line) lines ->
  ~ In LF tail ->
  List.concat before = stream_text lines ++ tail ->
  let run := generateStreamingResponse self prompt t in
  fst run
  = inl (match e with
         | JSError name _ =>
             if str_eqb name (lit "AbortError")
             then new_Error "Request timed out. Please try again."
             else e
         | AxiosFailure _ => e
         end)
  /\ chunks_delivered (snd run) = chunks_delivered t ++ flat_map line_delta lines.
Proof.
  intros req Hfetch Hok Hreader Hlines Htail Htext run. subst run.
  unfold generateStreamingResponse, try_catch, bind, do_fetch. fold req.
  rewrite Hfetch, Hok, Hreader. cbn [negb].
  rewrite read_loop_rejects by (simpl; tauto).
  cbn [app]. rewrite Htext, complete_lines_partial by assumption.
  assert (chunks_delivered ((t ++ [Sent req]) ++ flat_map line_events lines)
          = chunks_delivered t ++ flat_map line_delta lines) as Hchunks.
  { rewrite !chunks_delivered_app, chunks_of_lines.
    cbn [chunks_delivered flat_map app]. rewrite app_nil_r. reflexivity. }
  destruct e as [name message|e]; [destruct (str_eqb name _)|];
    cbn [fst snd throw]; auto.
Qed.

(** X4.  A stream that cannot be opened (the request is rejected, the
    answer is not ok, or the answer has no body to read) makes the call
    throw without a single chunk: the trace only gains the request. *)
Theorem unopened_stream_delivers_nothing self prompt t :
  let req := chat_request (config self) prompt true in
  (forall r, fetch t req = FetchResolves r ->
             ok r = false \/ body_reader r = None) ->
  exists error, generateStreamingResponse self prompt t = (inl error, t ++ [Sent req]).
Proof.
  intros req Hclosed.
  unfold generateStreamingResponse, try_catch, bind, do_fetch. fold req.
  destruct (fetch t req) as [r|e].
  - destruct (ok r) eqn:Hok; cbn [negb].
    + destruct (Hclosed r eq_refl) as [H|H]; [congruence|].
      rewrite H. eexists. reflexivity.
    + destruct (get _ (lit "error")) as [error|]; eexists; reflexivity.
  - destruct e as [name message|e]; [destruct (str_eqb name _)|];
      eexists; reflexivity.
Qed.


End StreamingFacts.

Lemma line_events_same_parser (P1 P2 : Platform) line :
  @JSON_parse P1 = @JSON_parse P2 ->
  @line_events P1 line = @line_events P2 line.
Proof.
  intros Hparse. unfold line_events, process_line. rewrite Hparse. reflexivity.
Qed.

(** X6.  The outcome does not depend on how the transport cuts the text
    into reads: two transports that deliver the same text in different
    pieces give the same result and the same trace, chunk for chunk. *)
Theorem read_boundaries_do_not_matter (P1 P2 : Platform)
  self prompt t r1 r2 reads1 reads2 :
  let req := chat_request (config self) prompt true in
  @JSON_parse P1 = @JSON_parse P2 ->
  @fetch P1 t req = FetchResolves r1 ->
  ok r1 = true ->
  body_reader r1 = Some (map ReadValue reads1) ->
  @fetch P2 t req = FetchResolves r2 ->
  ok r2 = true ->
  body_reader r2 = Some (map ReadValue reads2) ->
  List.concat reads1 = List.concat reads2 ->
  @generateStreamingResponse P1 self prompt t
  = @generateStreamingResponse P2 self prompt t.
Proof.
  intros req Hparse Hfetch1 Hok1 Hreader1 Hfetch2 Hok2 Hreader2 Htext.
  rewrite (@generateStreamingResponse_streams P1 self prompt t r1 reads1)
    by assumption.
  rewrite (@generateStreamingResponse_streams P2 self prompt t r2 reads2)
    by assumption.
  rewrite Htext. f_equal. f_equal.
  apply flat_map_ext. intros line. apply line_events_same_parser. exact Hparse.
Qed.

(** ** Documents: one call per chunk *)

Section GeneratorFacts.

Context {platform : Platform}.

Variable self : AIService.

(** The instruction that precedes each chunk; it always has something to
    read, so no call is answered locally. *)
Variable instruction : jsstring.
Hypothesis instruction_visible : forall chunk, ~ blank (instruction ++ chunk).

Let chunk_call (chunk : jsstring) : M JSValue :=
  generateResponse self (instruction ++ chunk).

Let chunk_request (chunk : jsstring) : Request :=
  chat_request (config self) (instruction ++ chunk) false.

Lemma chunk_calls_sent chunks : forall t,
  snd (promise_all (map chunk_call chunks) t)
  = t ++ map (fun chunk => Sent (chunk_request chunk)) chunks.
Proof using instruction_visible.
  induction chunks as [|chunk chunks IH]; intros t; cbn [map promise_all].
  - unfold ret. simpl. rewrite app_nil_r. reflexivity.
  - unfold chunk_call at 1.
    rewrite (generateResponse_sends self _ t (instruction_visible chunk)).
    cbv zeta. fold (chunk_request chunk).
    specialize (IH (t ++ [Sent (chunk_request chunk)])).
    destruct (promise_all _ _) as [rs t2]. simpl in IH. subst t2.
    simpl. rewrite <- app_assoc. reflexivity.
Qed.

(** The calls succeed together or not at all: the list of results is
    returned exactly when the request of every chunk, sent after those of
    the chunks before it, is answered. *)
Lemma chunk_calls_succeed chunks : forall t,
  (exists results, fst (promise_all (map chunk_call chunks) t) = inr results)
  <-> (forall i chunk, nth_error chunks i = Some chunk ->
         exists result,
           settled (axios_post
                      (t ++ map (fun c => Sent (chunk_request c)) (firstn i chunks))
                      (chunk_request chunk))
           = inr result).
Proof using instruction_visible.
  induction chunks as [|c chunks IH]; intros t; cbn [map promise_all].
  - split; [intros _ [|i] chunk; discriminate | intros _; eexists; reflexivity].
  - unfold chunk_call at 1.
    rewrite (generateResponse_sends self _ t (instruction_visible c)).
    cbv zeta. fold (chunk_request c).
    specialize (IH (t ++ [Sent (chunk_request c)])).
    destruct (promise_all _ _) as [rs t2]. cbn [fst] in *.
    split.
    + intros [results Hresults] i chunk Hi.
      destruct (settled (axios_post t (chunk_request c))) as [e|v] eqn:Hc;
        [discriminate|].
      destruct rs as [e|vs]; [discriminate|].
      destruct i as [|i]; cbn in Hi.
      * injection Hi as <-. cbn. rewrite app_nil_r. eauto.
      * destruct IH as [IH _]. destruct (IH (ex_intro _ vs eq_refl) i chunk Hi)
          as [result Hresult].
        exists result. cbn. rewrite <- app_assoc in Hresult. exact Hresult.
    + intros Hall.
      destruct (Hall 0 c eq_refl) as [v Hv]. cbn in Hv. rewrite app_nil_r in Hv.
      rewrite Hv.
      destruct IH as [_ IH]. destruct IH as [vs Hvs].
      * intros i chunk Hi. destruct (Hall (S i) chunk Hi) as [result Hresult].
        exists result. cbn in Hresult. rewrite <- app_assoc. exact Hresult.
      * rewrite Hvs. eexists. reflexivity.
Qed.

(** When the calls fail together, what is thrown is what the call of one
    of the chunks throws. *)
Lemma chunk_calls_fail chunks : forall t thrown,
  fst (promise_all (map chunk_call chunks) t) = inl thrown ->
  exists i chunk,
    nth_error chunks i = Some chunk
    /\ settled (axios_post
                  (t ++ map (fun c => Sent (chunk_request c)) (firstn i chunks))
                  (chunk_request chunk))
       = inl thrown.
Proof using instruction_visible.
  induction chunks as [|c chunks IH]; intros t thrown; cbn [map promise_all].
  - discriminate.
  - unfold chunk_call at 1.
    rewrite (generateResponse_sends self _ t (instruction_visible c)).
    cbv zeta. fold (chunk_request c).
    specialize (IH (t ++ [Sent (chunk_request c)])).
    destruct (promise_all _ _) as [rs t2]. cbn [fst] in *.
    destruct (settled (axios_post t (chunk_request c))) as [e|v] eqn:Hc.
    + intros [= <-]. exists 0, c. cbn. rewrite app_nil_r. auto.
    + destruct rs as [e|vs]; [|discriminate].
      intros [= <-]. destruct (IH e eq_refl) as (i & chunk & Hi & Hfails).
      exists (S i), chunk. cbn. rewrite <- app_assoc in Hfails. auto.
Qed.

End GeneratorFacts.

Section DocumentFacts.

Context {platform : Platform}.

Lemma quiz_prompt_visible rest : ~ blank (QUIZ_PROMPT ++ rest).
Proof. apply (visible_head 71%N). reflexivity. Qed.

Lemma flashcards_prompt_visible rest : ~ blank (FLASHCARDS_PROMPT ++ rest).
Proof. apply (visible_head 67%N). reflexivity. Qed.

Lemma concepts_prompt_visible rest : ~ blank (CONCEPTS_PROMPT ++ rest).
Proof. apply (visible_head 69%N). reflexivity. Qed.

Lemma combine_prompt_visible rest : ~ blank (COMBINE_PROMPT ++ rest).
Proof. apply (visible_head 80%N). reflexivity. Qed.

(** X7.  If the request of any chunk fails, [generateSummary] fails as a
    whole: it throws, no summary of the other chunks is returned, and no
    merge request is sent; the requests of all the chunks have been sent
    all the same. *)
Theorem failed_chunk_fails_the_summary self text t i chunk error :
  nth_error (chunkText text) i = Some chunk ->
  settled (axios_post
             (t ++ map (fun c => Sent (summary_request self c))
                       (firstn i (chunkText text)))
             (summary_request self chunk))
  = inl error ->
  exists thrown,
    generateSummary self text t
    = (inl thrown,
       t ++ map (fun c => Sent (summary_request self c)) (chunkText text)).
Proof.
  intros Hi Hfails.
  pose proof (chunk_calls_sent self SUMMARY_PROMPT summary_prompt_visible
                (chunkText text) t) as Hsent.
  pose proof (chunk_calls_succeed self SUMMARY_PROMPT summary_prompt_visible
                (chunkText text) t) as [Hall _].
  unfold generateSummary, bind.
  destruct (promise_all _ t) as [[thrown|summaries] t1]; cbn [fst snd] in *.
  - exists thrown. rewrite Hsent. reflexivity.
  - destruct (Hall (ex_intro _ summaries eq_refl) i chunk Hi) as [result Hresult].
    unfold summary_request in Hfails. congruence.
Qed.

(** X8.  [generateQuiz] sends one request, whatever the document: its
    prompt carries the first chunk and nothing of the later ones, and when
    the document has no chunk at all the prompt ends with the text
    "undefined". *)
Theorem quiz_reads_first_chunk_only self text t :
  let prompt :=
    QUIZ_PROMPT ++ match chunkText text with
                   | chunk :: _ => chunk
                   | [] => lit "undefined"
                   end in
  let req := chat_request (config self) prompt false in
  generateQuiz self text t = (settled (axios_post t req), t ++ [Sent req]).
Proof.
  intros prompt req. unfold generateQuiz.
  replace (QUIZ_PROMPT ++ ToString (first_chunk (chunkText text))) with prompt
    by (subst prompt; destruct (chunkText text); reflexivity).
  apply (generateResponse_sends self prompt t). apply quiz_prompt_visible.
Qed.

(** X9.  [generateFlashcards] does the same with its own instruction: one
    request, the first chunk only, "undefined" for a document without
    chunks. *)
Theorem flashcards_read_first_chunk_only self text t :
  let prompt :=
    FLASHCARDS_PROMPT ++ match chunkText text with
                         | chunk :: _ => chunk
                         | [] => lit "undefined"
                         end in
  let req := chat_request (config self) prompt false in
  generateFlashcards self text t = (settled (axios_post t req), t ++ [Sent req]).
Proof.
  intros prompt req. unfold generateFlashcards.
  replace (FLASHCARDS_PROMPT ++ ToString (first_chunk (chunkText text)))
    with prompt
    by (subst prompt; destruct (chunkText text); reflexivity).
  apply (generateResponse_sends self prompt t). apply flashcards_prompt_visible.
Qed.

(** X10.  [generateKeyConcepts] sends one request per chunk and then, when
    they all succeed, always one more that combines the answers, joined by
    blank lines: also for a single chunk and for no chunk at all, and
    whatever the length of the answers.  When the request of a chunk fails,
    the call throws and the combining request is not sent; what it throws
    is the error of one of the chunks that failed (which of them, when
    several fail, is a matter of time and is not said). *)
Theorem key_concepts_always_combine self text t :
  let request chunk :=
    chat_request (config self) (CONCEPTS_PROMPT ++ chunk) false in
  let answer i chunk :=
    settled (axios_post
               (t ++ map (fun c => Sent (request c)) (firstn i (chunkText text)))
               (request chunk)) in
  let calls :=
    promise_all
      (map (fun chunk => generateResponse self (CONCEPTS_PROMPT ++ chunk))
           (chunkText text)) t in
  let t1 := t ++ map (fun chunk => Sent (request chunk)) (chunkText text) in
  snd calls = t1
  /\ (forall i chunk error,
        nth_error (chunkText text) i = Some chunk ->
        answer i chunk = inl error ->
        exists thrown j failed,
          generateKeyConcepts self text t = (inl thrown, t1)
          /\ nth_error (chunkText text) j = Some failed
          /\ answer j failed = inl thrown)
  /\ (forall conceptsList, fst calls = inr conceptsList ->
        let combine :=
          chat_request (config self)
            (COMBINE_PROMPT ++ array_join [LF; LF] conceptsList) false in
        generateKeyConcepts self text t
        = (settled (axios_post t1 combine), t1 ++ [Sent combine])).
Proof.
  intros request answer calls t1.
  assert (snd calls = t1) as Hsent
    by apply (chunk_calls_sent self CONCEPTS_PROMPT concepts_prompt_visible).
  split; [exact Hsent|]. clear Hsent.
  pose proof (chunk_calls_sent self CONCEPTS_PROMPT concepts_prompt_visible
                (chunkText text) t) as Hsent.
  pose proof (chunk_calls_succeed self CONCEPTS_PROMPT concepts_prompt_visible
                (chunkText text) t) as [Hall _].
  pose proof (chunk_calls_fail self CONCEPTS_PROMPT concepts_prompt_visible
                (chunkText text) t) as Hone.
  unfold generateKeyConcepts, bind. subst calls.
  destruct (promise_all _ t) as [outcome t']. cbn [fst snd] in *. subst t'.
  split.
  - intros i chunk error Hi Hfails.
    destruct outcome as [thrown|results].
    + destruct (Hone thrown eq_refl) as (j & failed & Hj & Hthrown).
      exists thrown, j, failed. auto.
    + destruct (Hall (ex_intro _ results eq_refl) i chunk Hi) as [result Hresult].
      pose proof (eq_trans (eq_sym Hfails) Hresult) as Hboth.
      discriminate Hboth.
  - intros conceptsList ->. cbv zeta.
    apply (generateResponse_sends self _ t1). apply combine_prompt_visible.
Qed.

End DocumentFacts.

(** ** Credentials *)

Lemma word_is_not_white_space c :
  is_word_or_hyphen c = true -> is_white_space c = false.
Proof.
  unfold is_word_or_hyphen, is_word, is_white_space. intros Hword.
  destruct (_ || _ : bool)%bool eqn:Hspace at 1; [exfalso|reflexivity].
  repeat rewrite ?orb_true_iff, ?andb_true_iff, ?N.leb_le, ?N.eqb_eq in Hword.
  repeat rewrite ?orb_true_iff, ?andb_true_iff, ?N.leb_le, ?N.eqb_eq in Hspace.
  lia.
Qed.

Lemma shape_is_plain key :
  recognized_shape key ->
  13 <= List.length key /\ Forall (fun c => is_word_or_hyphen c = true) key.
Proof.
  intros (rest & Hkey & Hlen & Hrest). split.
  - destruct Hkey as [-> | ->]; rewrite length_app; simpl; lia.
  - destruct Hkey as [-> | ->]; apply Forall_app; split; try assumption;
      repeat constructor.
Qed.

(** X11.  Every key the constructor accepts has at least 13 characters, all
    of them letters, digits, underscores or hyphens of ASCII: a key with a
    blank, a line break or any other character in it, at the end included,
    is refused. *)
Theorem accepted_keys_are_plain key :
  validateApiKey key = true ->
  13 <= List.length key
  /\ Forall (fun c => is_word_or_hyphen c = true /\ is_white_space c = false) key.
Proof.
  intros Hvalid. apply validateApiKey_shape in Hvalid.
  destruct (shape_is_plain key Hvalid) as [Hlen Hall].
  split; [exact Hlen|].
  apply (Forall_impl _ (P := fun c => is_word_or_hyphen c = true)); [|exact Hall].
  intros c Hc. split; [exact Hc | apply word_is_not_white_space; exact Hc].
Qed.

(** ** The store *)

Lemma trimStart_skips_blank ws s : blank ws -> trimStart (ws ++ s) = trimStart s.
Proof.
  induction 1 as [|c ws Hc _ IH]; simpl; [reflexivity|]. rewrite Hc. exact IH.
Qed.

Lemma trimStart_visible c s : is_white_space c = false -> trimStart (c :: s) = c :: s.
Proof. intros H. simpl. rewrite H. reflexivity. Qed.

(** White space around a text without white space is trimmed away. *)
Lemma trim_surrounded ws1 k ws2 :
  blank ws1 -> blank ws2 ->
  Forall (fun c => is_white_space c = false) k ->
  trim (ws1 ++ k ++ ws2) = k.
Proof.
  intros H1 H2 Hk. unfold trim, trimEnd.
  rewrite trimStart_skips_blank by assumption.
  destruct Hk as [|c k Hc Hk].
  - simpl. apply trimStart_nil in H2 as Hnil. rewrite Hnil. simpl.
    reflexivity.
  - cbn [app]. rewrite trimStart_visible by assumption.
    change (c :: k ++ ws2) with ((c :: k) ++ ws2).
    rewrite rev_app_distr, trimStart_skips_blank
      by (apply Forall_rev; assumption).
    assert (Forall (fun c => is_white_space c = false) (rev (c :: k))) as Hrev
      by (apply Forall_rev; constructor; assumption).
    destruct (rev (c :: k)) as [|d l] eqn:E.
    + apply (f_equal (@List.length _)) in E. rewrite length_rev in E.
      discriminate.
    + inversion Hrev; subst. rewrite trimStart_visible by assumption.
      rewrite <- E. apply rev_involutive.
Qed.

Lemma setApiKey_consistent key provider t :
  exists st, setApiKey key provider t = (inr st, t) /\ store_consistent st.
Proof.
  unfold setApiKey, try_catch, bind, createAIService, new_AIService.
  destruct (validateApiKey key) eqn:Hvalid; simpl.
  - eexists. split; [reflexivity|]. unfold store_consistent. simpl. auto.
  - eexists. split; [reflexivity|]. exact I.
Qed.

Lemma initializeService_consistent outcome t :
  exists st t',
    initializeService outcome t = (inr st, t')
    /\ store_consistent st /\ requests t' = requests t.
Proof.
  assert (requests (t ++ [ConsoleError]) = requests t) as Hlog
    by (rewrite requests_app; apply app_nil_r).
  unfold initializeService, try_catch, bind, createAIService, new_AIService.
  destruct outcome as [[data|]|e];
    try (do 2 eexists; split; [reflexivity|]; split; [exact I|exact Hlog]).
  cbn -[validateApiKey]. destruct (field_or _ _) as [[|c key]|];
    try (do 2 eexists; split; [reflexivity|]; split; [exact I|exact Hlog]).
  destruct (validateApiKey (c :: key)) eqn:Hvalid; cbn -[validateApiKey].
  - do 2 eexists. split; [reflexivity|]. split; [|reflexivity].
    unfold store_consistent. simpl. auto.
  - do 2 eexists. split; [reflexivity|]. split; [exact I|exact Hlog].
Qed.

Lemma clearError_consistent st : store_consistent st -> store_consistent (clearError st).
Proof.
  unfold store_consistent, clearError. simpl.
  destruct (store_service st), (store_apiKey st); tauto.
Qed.

Lemma store_run_consistent actions : forall st t,
  store_consistent st ->
  exists st' t',
    store_run actions st t = (inr st', t')
    /\ store_consistent st' /\ requests t' = requests t.
Proof.
  induction actions as [|action actions IH]; intros st t Hst; cbn [store_run].
  - exists st, t. auto.
  - unfold bind.
    assert (exists st1 t1, store_step action st t = (inr st1, t1)
                           /\ store_consistent st1 /\ requests t1 = requests t)
      as (st1 & t1 & -> & Hst1 & Ht1).
    { destruct action as [key provider|outcome|]; cbn [store_step].
      - destruct (setApiKey_consistent key provider t) as (st1 & -> & H).
        exists st1, t. auto.
      - apply initializeService_consistent.
      - exists (clearError st), t. auto using clearError_consistent. }
    destruct (IH st1 t1 Hst1) as (st' & t' & -> & Hst' & Ht').
    exists st', t'. split; [reflexivity|]. split; [assumption|congruence].
Qed.

(** X12.  Whatever is done with the store, in any order and with any
    input, no operation throws or sends a request, and the store stays
    consistent: it holds a service and a key together or neither, the key
    it holds is the key of the service and has the recognized shape, and
    then no error is recorded. *)
Theorem store_stays_consistent actions t :
  exists st t',
    store_run actions initial_store t = (inr st, t')
    /\ store_consistent st
    /\ requests t' = requests t.
Proof. apply store_run_consistent. exact I. Qed.

(** X13.  A DeepSeek key in the database wins over an OpenAI key: when the
    field ['deepseek-key'] is not empty the service is made from it, for
    the provider DeepSeek, and when it does not have the recognized shape
    the initialization fails with "Invalid API key format", whether or not
    a usable OpenAI key is stored beside it. *)
Theorem deepseek_key_takes_precedence key other t :
  key <> [] ->
  let outcome :=
    Snapshot (Some {| deepseek_key := Some key; openai_key := other |}) in
  (recognized_shape key ->
     initializeService outcome t =
       (inr {| store_apiKey := Some key;
               store_service :=
                 Some {| config := {| baseURL := lit "https://api.deepseek.com/v1";
                                      apiKey := key;
                                      model := lit "deepseek-chat" |} |};
               store_error := None |}, t))
  /\ (~ recognized_shape key ->
        initializeService outcome t =
          (inr {| store_apiKey := None;
                  store_service := None;
                  store_error := Some (lit "Invalid API key format") |},
           t ++ [ConsoleError])).
Proof.
  intros Hkey outcome. subst outcome.
  destruct key as [|c key]; [contradiction|].
  unfold initializeService, try_catch, bind, createAIService, new_AIService.
  cbn -[validateApiKey]. split; intros H.
  - apply validateApiKey_shape in H. rewrite H. reflexivity.
  - apply validateApiKey_not_shape in H. rewrite H. reflexivity.
Qed.

(** X14.  When the field ['deepseek-key'] is absent or empty the OpenAI key
    is used, for the provider OpenAI; when that one is absent or empty too,
    or when there is no document, the initialization fails with a message
    that says so, and in each case the failure is recorded in the store and
    logged, not thrown. *)
Theorem openai_key_is_the_fallback data t :
  field_truthy (deepseek_key data) = false ->
  (forall key, openai_key data = Some key -> recognized_shape key ->
     initializeService (Snapshot (Some data)) t =
       (inr {| store_apiKey := Some key;
               store_service :=
                 Some {| config := {| baseURL := lit "https://api.openai.com/v1";
                                      apiKey := key;
                                      model := lit "gpt-3.5-turbo" |} |};
               store_error := None |}, t))
  /\ (field_truthy (openai_key data) = false ->
        initializeService (Snapshot (Some data)) t =
          (inr {| store_apiKey := None;
                  store_service := None;
                  store_error :=
                    Some (lit "API key is missing from the configuration.") |},
           t ++ [ConsoleError]))
  /\ initializeService (Snapshot None) t =
       (inr {| store_apiKey := None;
               store_service := None;
               store_error :=
                 Some (lit "API keys not found in database. Please check the configuration.") |},
        t ++ [ConsoleError]).
Proof.
  intros Hdeepseek.
  unfold initializeService, try_catch, bind, createAIService, new_AIService,
    field_or.
  cbn -[validateApiKey field_truthy]. rewrite Hdeepseek.
  cbn -[validateApiKey field_truthy]. repeat split.
  - intros key Hopenai Hshape. rewrite Hopenai.
    apply validateApiKey_shape in Hshape as Hvalid.
    destruct key as [|c key]; [discriminate Hvalid|].
    rewrite Hvalid. reflexivity.
  - intros Hopenai. destruct (openai_key data) as [[|c key]|];
      [reflexivity | discriminate | reflexivity].
Qed.

(** X15.  The key form trims what is typed before it hands it to the
    store: a key of the recognized shape is accepted with any white space
    before and after it (a line break copied along with it, say), although
    the constructor alone would refuse such a text. *)
Theorem pasted_key_is_trimmed ws1 key ws2 st t :
  blank ws1 -> blank ws2 ->
  recognized_shape key ->
  APIKeyInput_handleSubmit (ws1 ++ key ++ ws2) st t =
    (inr {| store_apiKey := Some key;
            store_service :=
              Some {| config := {| baseURL := lit "https://api.openai.com/v1";
                                   apiKey := key;
                                   model := lit "gpt-3.5-turbo" |} |};
            store_error := None |}, t).
Proof.
  intros H1 H2 Hshape.
  apply validateApiKey_shape in Hshape as Hvalid.
  destruct (shape_is_plain key Hshape) as [Hlen Hplain].
  assert (trim (ws1 ++ key ++ ws2) = key) as Htrim.
  { apply trim_surrounded; try assumption.
    apply (Forall_impl _ (P := fun c => is_word_or_hyphen c = true));
      [apply word_is_not_white_space | exact Hplain]. }
  unfold APIKeyInput_handleSubmit. rewrite Htrim.
  destruct key as [|c key]; [simpl in Hlen; lia|]. cbn [truthy].
  unfold setApiKey, try_catch, bind, createAIService, new_AIService.
  rewrite Hvalid. reflexivity.
Qed.

(** ** The chat: what the caller makes of the chunks *)

Section ChatFacts.

Context {platform : Platform}.

Import RealtimeChat.

Lemma read_loop_extends reads : forall buffer t,
  exists new, snd (read_loop reads buffer t) = t ++ new.
Proof.
  induction reads as [|[value|e] reads IH]; intros buffer t; cbn [read_loop].
  - exists []. symmetry. apply app_nil_r.
  - destruct (pop (split_on LF (buffer ++ value))) as [last lines].
    unfold bind. rewrite for_of_process_line.
    match goal with |- context [read_loop reads ?b ?t1] =>
      destruct (IH b t1) as [new Hnew] end.
    rewrite Hnew, <- app_assoc. eauto.
  - exists []. symmetry. apply app_nil_r.
Qed.

(** The service only adds to the trace. *)
Lemma generateStreamingResponse_extends self prompt t :
  exists new, snd (generateStreamingResponse self prompt t) = t ++ new.
Proof.
  unfold generateStreamingResponse, try_catch, bind, do_fetch.
  set (req := chat_request (config self) prompt true).
  destruct (fetch t req) as [r|e].
  - destruct (ok r); cbn [negb].
    + destruct (body_reader r) as [reads|]; [|exists [Sent req]; reflexivity].
      destruct (read_loop_extends reads [] (t ++ [Sent req])) as [new Hnew].
      destruct (read_loop reads [] (t ++ [Sent req])) as [[e|[]] t'];
        cbn [snd] in Hnew; subst t'; exists ([Sent req] ++ new);
        rewrite app_assoc.
      * destruct e as [name message|e]; [destruct (str_eqb name _)|];
          reflexivity.
      * reflexivity.
    + destruct (get _ (lit "error")) as [error|]; exists [Sent req]; reflexivity.
  - exists [Sent req].
    destruct e as [name message|e]; [destruct (str_eqb name _)|]; reflexivity.
Qed.

Lemma events_since_app t new : events_since t (t ++ new) = new.
Proof.
  unfold events_since. rewrite skipn_app, skipn_all, Nat.sub_diag. reflexivity.
Qed.

(** After any number of chunks the last message is the streaming message
    with everything received so far. *)
Lemma fold_onChunk chunks : forall acc base typed flag,
  fold_left onChunk chunks
    (acc, {| messages := base ++ [streaming_message acc];
             input := typed;
             streaming := flag;
             streamingMessage := Some (streaming_message acc) |})
  = (acc ++ flat_map ToString chunks,
     {| messages := base ++ [streaming_message (acc ++ flat_map ToString chunks)];
        input := typed;
        streaming := flag;
        streamingMessage :=
          Some (streaming_message (acc ++ flat_map ToString chunks)) |}).
Proof.
  induction chunks as [|chunk chunks IH]; intros acc base typed flag;
    cbn [fold_left flat_map].
  - rewrite app_nil_r. reflexivity.
  - unfold onChunk at 2. cbn [messages input streaming].
    unfold replace_last. rewrite removelast_last, IH, <- app_assoc. reflexivity.
Qed.

(** X16.  When the streamed answer comes to its end, the chat has gained
    two messages: the text that was typed, and the answer, which is the
    concatenation, in order, of the chunks the service delivered during the
    call; the answer is no longer marked as streaming, the input is empty
    and the chat accepts the next message. *)
Theorem chat_keeps_what_was_streamed service st t result t' :
  ~ blank (input st) ->
  streaming st = false ->
  generateStreamingResponse service (input st) t = (inr result, t') ->
  handleSubmit (Some service) st t
  = (inr {| messages :=
              messages st
              ++ [ {| role := user; content := input st; isStreaming := None |};
                   {| role := assistant;
                      content :=
                        flat_map ToString (chunks_delivered (events_since t t'));
                      isStreaming := Some false |} ];
            input := [];
            streaming := false;
            streamingMessage := None |}, t').
Proof.
  intros Hinput Hfree Hrun. unfold handleSubmit.
  rewrite (visible_prompt_truthy _ Hinput), Hfree. cbn [negb orb].
  rewrite Hrun, fold_onChunk. cbn [messages input app].
  unfold replace_last. rewrite removelast_last, <- app_assoc. reflexivity.
Qed.

(** X17.  When the service throws, the chat does not throw: it logs the
    error and adds its apology, but the answer begun so far stays in the
    list in front of the apology, with what was received of it and still
    marked as streaming. *)
Theorem chat_leaves_the_partial_answer service st t error t' :
  ~ blank (input st) ->
  streaming st = false ->
  generateStreamingResponse service (input st) t = (inl error, t') ->
  let partial :=
    streaming_message (flat_map ToString (chunks_delivered (events_since t t'))) in
  handleSubmit (Some service) st t
  = (inr {| messages :=
              messages st
              ++ [ {| role := user; content := input st; isStreaming := None |};
                   partial;
                   SORRY ];
            input := [];
            streaming := false;
            streamingMessage := Some partial |}, t' ++ [ConsoleError]).
Proof.
  intros Hinput Hfree Hrun partial. unfold handleSubmit.
  rewrite (visible_prompt_truthy _ Hinput), Hfree. cbn [negb orb].
  rewrite Hrun, fold_onChunk. cbn [messages input streamingMessage app].
  rewrite <- !app_assoc. reflexivity.
Qed.

End ChatFacts.

(** ** Flashcards: reading the answer *)

Lemma trimStart_idempotent s : trimStart (trimStart s) = trimStart s.
Proof.
  induction s as [|c s IH]; simpl; [reflexivity|].
  destruct (is_white_space c) eqn:E; [exact IH|]. simpl. rewrite E. reflexivity.
Qed.

Lemma trimStart_head s c x : trimStart s = c :: x -> is_white_space c = false.
Proof.
  induction s as [|d s IH]; simpl; [discriminate|].
  destruct (is_white_space d) eqn:E; [exact IH|]. intros [= <- _]. exact E.
Qed.

Lemma trimStart_snoc_visible l c :
  is_white_space c = false -> trimStart (l ++ [c]) = trimStart l ++ [c].
Proof.
  intros Hc. induction l as [|d l IH]; simpl.
  - rewrite Hc. reflexivity.
  - destruct (is_white_space d); [exact IH | reflexivity].
Qed.

Lemma trimEnd_cons_visible c x :
  is_white_space c = false -> trimEnd (c :: x) = c :: trimEnd x.
Proof.
  intros Hc. unfold trimEnd. simpl.
  rewrite trimStart_snoc_visible, rev_app_distr by assumption. reflexivity.
Qed.

Lemma trimEnd_idempotent x : trimEnd (trimEnd x) = trimEnd x.
Proof.
  unfold trimEnd. rewrite rev_involutive, trimStart_idempotent. reflexivity.
Qed.

Lemma trim_idempotent s : trim (trim s) = trim s.
Proof.
  unfold trim. destruct (trimStart s) as [|c x] eqn:E; [reflexivity|].
  apply trimStart_head in E as Hc.
  rewrite trimEnd_cons_visible by assumption.
  rewrite trimStart_visible by assumption.
  rewrite trimEnd_cons_visible, trimEnd_idempotent by assumption. reflexivity.
Qed.

Lemma trim_after_space s : trim (32%N :: s) = trim s.
Proof. reflexivity. Qed.

(** *** Scanning for a separator *)

Lemma startsWith_other_head c s s0 sep :
  c <> s0 -> startsWith (c :: s) (s0 :: sep) = false.
Proof.
  intros H. simpl. destruct (c =? s0)%N eqn:E; [|reflexivity].
  apply N.eqb_eq in E. contradiction.
Qed.

(** A stretch without the first character of the separator is read into the
    current piece. *)
Lemma split_scan_free s0 sep x : forall current tail,
  ~ In s0 x ->
  split_scan (s0 :: sep) 0 current (x ++ tail)
  = split_scan (s0 :: sep) 0 (current ++ x) tail.
Proof.
  induction x as [|c x IH]; intros current tail Hfree.
  - rewrite app_nil_r. reflexivity.
  - cbn [app split_scan]. rewrite startsWith_other_head by (simpl in Hfree; tauto).
    rewrite IH by (simpl in Hfree; tauto).
    rewrite <- app_assoc. reflexivity.
Qed.

Lemma split_scan_skip sep x : forall current rest,
  split_scan sep (List.length x) current (x ++ rest) = split_scan sep 0 current rest.
Proof.
  induction x as [|c x IH]; intros current rest; [reflexivity|].
  cbn [List.length app split_scan]. apply IH.
Qed.

(** At the separator the current piece is closed. *)
Lemma split_scan_match s0 sep current rest :
  split_scan (s0 :: sep) 0 current ((s0 :: sep) ++ rest)
  = current :: split_scan (s0 :: sep) 0 [] rest.
Proof.
  cbn [app split_scan].
  change (s0 :: sep ++ rest) with ((s0 :: sep) ++ rest).
  rewrite startsWith_app.
  replace (List.length (s0 :: sep) - 1) with (List.length sep)
    by (simpl; lia).
  rewrite split_scan_skip. reflexivity.
Qed.

Lemma includes_app x pattern y : includes (x ++ pattern ++ y) pattern = true.
Proof.
  induction x as [|c x IH].
  - cbn [app]. destruct pattern; simpl.
    + destruct y; reflexivity.
    + change (c :: pattern ++ y) with ((c :: pattern) ++ y).
      rewrite N.eqb_refl, startsWith_app. reflexivity.
  - cbn [app includes]. rewrite IH. apply orb_true_r.
Qed.

(** *** The cards in the format the prompt asks for *)

Section FlashcardFacts.

Context {platform : Platform}.

Import Flashcards.

Lemma format_card_parts card :
  format_card card
  = (lit "Q: " ++ question card) ++ (LF :: lit "A:") ++ (32%N :: answer card).
Proof. unfold format_card. rewrite <- app_assoc. reflexivity. Qed.

Lemma question_line_free card :
  ~ In LF (question card) -> ~ In LF (lit "Q: " ++ question card).
Proof.
  intros Hq Hin. apply in_app_or in Hin as [Hin|Hin]; [|auto].
  revert Hin. clear. vm_compute. intuition discriminate.
Qed.

Lemma answer_line_free card :
  ~ In LF (answer card) -> ~ In LF (lit "A: " ++ answer card).
Proof.
  intros Ha Hin. apply in_app_or in Hin as [Hin|Hin]; [|auto].
  revert Hin. clear. vm_compute. intuition discriminate.
Qed.

(** Two lines with a single line feed between them have no blank line: the
    scan for blank lines reads them whole. *)
Lemma scan_two_lines p r0 r current tail :
  ~ In LF p -> r0 <> LF -> ~ In LF r ->
  split_scan [LF; LF] 0 current ((p ++ LF :: r0 :: r) ++ tail)
  = split_scan [LF; LF] 0 (current ++ p ++ LF :: r0 :: r) tail.
Proof.
  intros Hp Hr0 Hr.
  rewrite <- (app_assoc p). rewrite split_scan_free by assumption.
  cbn [app split_scan startsWith].
  rewrite N.eqb_refl. apply N.eqb_neq in Hr0 as Hneq. rewrite Hneq.
  cbn [andb].
  rewrite split_scan_free by assumption.
  rewrite <- !app_assoc. reflexivity.
Qed.

Lemma colon_line_free field : ~ In LF field -> ~ In LF (lit ": " ++ field).
Proof.
  intros Hf Hin. apply in_app_or in Hin as [Hin|Hin]; [|auto].
  revert Hin. clear. vm_compute. intuition discriminate.
Qed.

Lemma format_card_lines card :
  format_card card
  = (lit "Q: " ++ question card) ++ LF :: 65%N :: (lit ": " ++ answer card).
Proof. unfold format_card. rewrite <- app_assoc. reflexivity. Qed.

(** A card of one-line fields is read whole by the scan for blank lines. *)
Lemma format_card_scan card current tail :
  ~ In LF (question card) -> ~ In LF (answer card) ->
  split_scan [LF; LF] 0 current (format_card card ++ tail)
  = split_scan [LF; LF] 0 (current ++ format_card card) tail.
Proof.
  intros Hq Ha. rewrite format_card_lines.
  apply scan_two_lines.
  - apply question_line_free. assumption.
  - discriminate.
  - apply colon_line_free. assumption.
Qed.

Lemma split_format cards :
  Forall (fun card => ~ In LF (question card) /\ ~ In LF (answer card)) cards ->
  cards <> [] ->
  split (format cards) [LF; LF] = map format_card cards.
Proof.
  unfold split, format. intros Hcards.
  induction Hcards as [|card cards [Hq Ha] Hcards IH]; [congruence|]. intros _.
  destruct cards as [|card' cards].
  - cbn [map join].
    rewrite <- (app_nil_r (format_card card)) at 1.
    rewrite format_card_scan by assumption. reflexivity.
  - change (join [LF; LF] (map format_card (card :: card' :: cards)))
      with (format_card card
            ++ [LF; LF] ++ join [LF; LF] (map format_card (card' :: cards))).
    rewrite format_card_scan, split_scan_match by assumption.
    rewrite IH by discriminate. reflexivity.
Qed.

Lemma format_card_looks_like_card card :
  looks_like_card (format_card card) = true.
Proof.
  unfold looks_like_card. apply andb_true_iff. split.
  - unfold trim.
    change (format_card card)
      with (81%N :: 58%N :: 32%N :: question card ++ [LF] ++ lit "A: " ++ answer card).
    rewrite trimStart_visible by reflexivity.
    rewrite !trimEnd_cons_visible by reflexivity. reflexivity.
  - rewrite format_card_parts. apply includes_app.
Qed.

Lemma to_card_format_card card t :
  plain (question card) -> plain (answer card) ->
  to_card (format_card card) t = (inr (Some card), t).
Proof.
  intros [Hq Hqt] [Ha Hat]. unfold to_card, split.
  rewrite format_card_parts.
  rewrite split_scan_free by (apply question_line_free; assumption).
  rewrite split_scan_match.
  rewrite <- (app_nil_r (32%N :: answer card)).
  rewrite split_scan_free
    by (simpl; intros [H|H]; [discriminate H | contradiction]).
  cbn [app split_scan].
  change (replace (lit "Q: " ++ question card) (lit "Q:") [])
    with (32%N :: question card).
  rewrite !trim_after_space, Hqt, Hat. destruct card; reflexivity.
Qed.

Lemma parse_format cards t :
  Forall (fun card => plain (question card) /\ plain (answer card)) cards ->
  parse (format cards) t = (inr cards, t).
Proof.
  intros Hcards. unfold parse, bind.
  destruct cards as [|card0 cards0] eqn:E; [reflexivity|]. rewrite <- E in *.
  rewrite split_format;
    [| apply (Forall_impl _ (P := fun card => plain (question card)
                                              /\ plain (answer card)));
       [unfold plain; tauto | exact Hcards]
     | congruence].
  clear E card0 cards0.
  assert (filter looks_like_card (map format_card cards) = map format_card cards)
    as ->.
  { clear. induction cards as [|card cards IH]; cbn [map filter]; [reflexivity|].
    rewrite format_card_looks_like_card, IH. reflexivity. }
  assert (map_M to_card (map format_card cards) t = (inr (map Some cards), t))
    as ->.
  { induction Hcards as [|card cards [Hq Ha] _ IH]; cbn [map map_M];
      [reflexivity|].
    unfold bind. rewrite to_card_format_card, IH by assumption. reflexivity. }
  unfold ret. f_equal. f_equal. clear. unfold not_null.
  induction cards as [|card cards IH]; simpl; [reflexivity|].
  f_equal. exact IH.
Qed.

End FlashcardFacts.

Section FlashcardComponent.

Context {platform : Platform}.

Import Flashcards.

Lemma flashcards_prompt_is_visible text : ~ blank (PROMPT ++ text).
Proof. apply (visible_head 67%N). reflexivity. Qed.

Lemma to_card_returns block t :
  exists card t', to_card block t = (inr card, t')
                  /\ match card with
                     | Some c => trim (question c) = question c
                                 /\ trim (answer c) = answer c
                     | None => True
                     end.
Proof.
  unfold to_card.
  destruct (split block (LF :: lit "A:")) as [|q [|a [|]]];
    try (do 2 eexists; split; [reflexivity | exact I]).
  do 2 eexists. split; [reflexivity|]. cbn [question answer].
  split; apply trim_idempotent.
Qed.

Lemma map_M_to_card_returns blocks : forall t,
  exists cards t',
    map_M to_card blocks t = (inr cards, t')
    /\ Forall (fun c => trim (question c) = question c
                        /\ trim (answer c) = answer c) (not_null cards).
Proof.
  induction blocks as [|block blocks IH]; intros t; cbn [map_M].
  - exists [], t. split; [reflexivity | constructor].
  - unfold bind.
    destruct (to_card_returns block t) as (card & t1 & -> & Hcard).
    destruct (IH t1) as (cards & t2 & -> & Hcards).
    exists (card :: cards), t2. split; [reflexivity|].
    unfold not_null in *. cbn [flat_map].
    destruct card as [c|]; [constructor; assumption | exact Hcards].
Qed.

Lemma parse_returns result t :
  exists cards t',
    parse result t = (inr cards, t')
    /\ Forall (fun c => trim (question c) = question c
                        /\ trim (answer c) = answer c) cards.
Proof.
  unfold parse, bind.
  destruct (map_M_to_card_returns
              (filter looks_like_card (split result [LF; LF])) t)
    as (cards & t' & -> & Hcards).
  exists (not_null cards), t'. split; [reflexivity | exact Hcards].
Qed.

(** X18.  Reading the answer is the inverse of the format the prompt asks
    for: when the provider answers with cards written as "Q: ..." and
    "A: ..." on two lines, with a blank line between the cards, the
    component holds exactly those cards, in that order, provided every
    question and answer is one line without white space at its ends. *)
Theorem flashcards_round_trip service text old t r cards :
  let req := chat_request (config service) (PROMPT ++ text) false in
  text <> [] ->
  cards <> [] ->
  Forall (fun card => plain (question card) /\ plain (answer card)) cards ->
  axios_post t req = PostResolves r ->
  message_content (data r) = Some (JStr (format cards)) ->
  load (Some service) text false old t = (inr cards, t ++ [Sent req]).
Proof.
  intros req Htext Hcards Hplain Hpost Hcontent. unfold load.
  destruct text as [|c text]; [contradiction|]. cbn [truthy negb orb].
  unfold try_catch, bind.
  rewrite (generateResponse_sends service _ t (flashcards_prompt_is_visible _)).
  cbv zeta. fold req. rewrite Hpost. unfold settled. rewrite Hcontent.
  assert (truthy (JStr (format cards)) = true) as ->.
  { destruct cards as [|card [|card' cards]]; [contradiction| |]; reflexivity. }
  cbn [negb]. rewrite parse_format by assumption.
  destruct cards; [contradiction | reflexivity].
Qed.

(** X19.  Whatever the provider answers, and whether or not the request
    succeeds, loading the cards of a text does not throw and leaves the
    component with at least one card (the cards read from the answer, or the
    card that reports the error), and none of the cards has white space at
    the ends of its question or of its answer. *)
Theorem deck_is_never_empty service text old t :
  text <> [] ->
  exists cards t',
    load (Some service) text false old t = (inr cards, t')
    /\ cards <> []
    /\ Forall (fun c => trim (question c) = question c
                        /\ trim (answer c) = answer c) cards.
Proof.
  intros Htext. unfold load.
  destruct text as [|c text]; [contradiction|]. cbn [truthy negb orb].
  assert (Forall (fun c => trim (question c) = question c
                           /\ trim (answer c) = answer c) [ERROR_CARD])
    as Herror by (repeat constructor; vm_compute; reflexivity).
  unfold try_catch, bind.
  destruct (generateResponse service (PROMPT ++ c :: text) t) as [[e|result] t1].
  - do 2 eexists. split; [reflexivity|]. split; [discriminate | exact Herror].
  - destruct (truthy result);
      [|do 2 eexists; split; [reflexivity|]; split; [discriminate | exact Herror]].
    cbn [negb].
    destruct result as [| |b|x|answer_text|items|fields];
      try (do 2 eexists; split; [reflexivity|];
           split; [discriminate | exact Herror]).
    destruct (parse_returns answer_text t1) as (cards & t2 & -> & Htrimmed).
    destruct cards as [|card cards].
    + do 2 eexists. split; [reflexivity|]. split; [discriminate | exact Herror].
    + do 2 eexists. split; [reflexivity|]. split; [discriminate | exact Htrimmed].
Qed.

End FlashcardComponent.

(** X20.  With a deck of [n] cards and a card of the deck on show, the
    next and the previous card are cards of the deck again, the last card
    is followed by the first and the first preceded by the last, and going
    forth and back, or back and forth, shows the same card again. *)
Theorem card_navigation_cycles n i :
  (0 <= i < n)%Z ->
  let next := Flashcards.goToNextCard n i in
  let previous := Flashcards.goToPreviousCard n i in
  (0 <= next < n)%Z
  /\ (0 <= previous < n)%Z
  /\ (i = n - 1 -> next = 0)%Z
  /\ (i = 0 -> previous = n - 1)%Z
  /\ Flashcards.goToPreviousCard n next = i
  /\ Flashcards.goToNextCard n previous = i.
Proof.
  intros Hi next previous. subst next previous.
  unfold Flashcards.goToNextCard, Flashcards.goToPreviousCard.
  assert (forall a, (0 <= a < n -> Z.rem a n = a)%Z) as Hsmall
    by (intros a Ha; apply Z.rem_small; lia).
  assert (Z.rem n n = 0)%Z as Hsame by (apply Z.rem_same; lia).
  assert (forall a, (0 <= a < n -> Z.rem (a + n) n = a)%Z) as Hwrap.
  { intros a Ha. rewrite Z.rem_mod_nonneg by lia.
    replace (a + n)%Z with (a + 1 * n)%Z by lia.
    rewrite Z.mod_add by lia. apply Z.mod_small. lia. }
  destruct (Z.eq_dec i (n - 1)) as [Hlast|Hlast];
    destruct (Z.eq_dec i 0) as [Hfirst|Hfirst].
  - assert (n = 1)%Z by lia. subst. vm_compute. repeat split; congruence.
  - subst i. replace (n - 1 + 1)%Z with n by lia. rewrite Hsame.
    replace (0 - 1 + n)%Z with (n - 1)%Z by lia.
    replace (n - 1 - 1 + n)%Z with (n - 2 + n)%Z by lia.
    rewrite (Hwrap (n - 2)%Z), (Hsmall (n - 1)%Z) by lia.
    replace (n - 2 + 1)%Z with (n - 1)%Z by lia.
    rewrite (Hsmall (n - 1)%Z) by lia. repeat split; lia.
  - subst i. cbn [Z.add]. replace (0 - 1 + n)%Z with (n - 1)%Z by lia.
    rewrite (Hsmall 1%Z), (Hsmall (n - 1)%Z) by lia.
    replace (1 - 1 + n)%Z with (0 + n)%Z by lia.
    rewrite (Hwrap 0%Z) by lia.
    replace (n - 1 + 1)%Z with n by lia. rewrite Hsame. repeat split; lia.
  - rewrite (Hsmall (i + 1)%Z) by lia.
    replace (i - 1 + n)%Z with ((i - 1) + n)%Z by lia.
    rewrite (Hwrap (i - 1)%Z) by lia.
    replace (i + 1 - 1 + n)%Z with (i + n)%Z by lia.
    rewrite (Hwrap i) by lia.
    replace (i - 1 + 1)%Z with i by lia.
    rewrite (Hsmall i) by lia. repeat split; lia.
Qed.

(** ** The quiz and the outline of key concepts *)

Lemma quiz_step_in_range questions action st :
  Quiz.currentQuestion st < List.length questions ->
  exists st',
    Quiz.step questions action st = Some st'
    /\ Quiz.currentQuestion st' < List.length questions.
Proof.
  intros Hrange. destruct action as [answerIndex| | |]; cbn [Quiz.step].
  - unfold Quiz.handleAnswer. destruct (Quiz.isAnswered st); [eauto|].
    destruct (nth_error questions (Quiz.currentQuestion st)) as [q|] eqn:E.
    + eexists. split; [reflexivity | exact Hrange].
    + apply nth_error_None in E. lia.
  - eexists. split; [reflexivity|]. unfold Quiz.nextQuestion.
    destruct (Z.ltb_spec (Z.of_nat (Quiz.currentQuestion st))
                (Z.of_nat (List.length questions) - 1));
      cbn [Quiz.currentQuestion]; lia.
  - eexists. split; [reflexivity|]. unfold Quiz.previousQuestion.
    destruct (0 <? Quiz.currentQuestion st); cbn [Quiz.currentQuestion]; lia.
  - eexists. split; [reflexivity|]. cbn. lia.
Qed.

(** X21.  Whatever the user does, in any order, the quiz stays on one of
    its questions: the index never leaves the list, so answering never
    reads a question that is not there. *)
Theorem quiz_stays_on_a_question questions actions : forall st,
  Quiz.currentQuestion st < List.length questions ->
  exists st',
    Quiz.run questions actions st = Some st'
    /\ Quiz.currentQuestion st' < List.length questions.
Proof.
  induction actions as [|action actions IH]; intros st Hrange; cbn [Quiz.run].
  - eauto.
  - destruct (quiz_step_in_range questions action st Hrange) as (st1 & -> & H1).
    apply IH. exact H1.
Qed.

(** X22.  A question is scored once per visit: after an answer, further
    answers on the same visit change nothing; and an answer adds at most one
    point. *)
Theorem answer_counts_once questions first second st st1 :
  Quiz.handleAnswer questions first st = Some st1 ->
  Quiz.handleAnswer questions second st1 = Some st1
  /\ (Quiz.score st <= Quiz.score st1 <= Quiz.score st + 1)%Z.
Proof.
  unfold Quiz.handleAnswer. destruct (Quiz.isAnswered st) eqn:Hanswered.
  - intros [= <-]. rewrite Hanswered. split; [reflexivity | lia].
  - destruct (nth_error questions (Quiz.currentQuestion st)) as [q|];
      [|discriminate].
    intros [= <-]. cbn [Quiz.isAnswered Quiz.score]. split; [reflexivity|].
    destruct (first =? Quiz.correctAnswer q)%Z; lia.
Qed.

(** X23.  Going to the next question and back forgets that the question
    was answered: the same right answer given again is scored again, so the
    score can grow beyond the number of questions. *)
Theorem returning_scores_a_question_again questions st q :
  Quiz.currentQuestion st + 1 < List.length questions ->
  Quiz.isAnswered st = false ->
  nth_error questions (Quiz.currentQuestion st) = Some q ->
  let right := Quiz.correctAnswer q in
  Quiz.run questions
    [Quiz.Answer right; Quiz.Next; Quiz.Previous; Quiz.Answer right] st
  = Some {| Quiz.currentQuestion := Quiz.currentQuestion st;
            Quiz.selectedAnswer := Some right;
            Quiz.isAnswered := true;
            Quiz.score := Quiz.score st + 2 |}.
Proof.
  intros Hrange Hfresh Hq right. subst right.
  cbn [Quiz.run Quiz.step]. unfold Quiz.handleAnswer at 1.
  rewrite Hfresh, Hq, Z.eqb_refl.
  unfold Quiz.nextQuestion. cbn [Quiz.currentQuestion Quiz.score].
  destruct (Z.ltb_spec (Z.of_nat (Quiz.currentQuestion st))
              (Z.of_nat (List.length questions) - 1)) as [_|H]; [|lia].
  unfold Quiz.previousQuestion. cbn [Quiz.currentQuestion Quiz.score].
  replace (0 <? Quiz.currentQuestion st + 1) with true
    by (symmetry; apply Nat.ltb_lt; lia).
  replace (Quiz.currentQuestion st + 1 - 1) with (Quiz.currentQuestion st) by lia.
  unfold Quiz.handleAnswer.
  cbn [Quiz.isAnswered Quiz.currentQuestion Quiz.score].
  rewrite Hq, Z.eqb_refl. do 2 f_equal. lia.
Qed.

(** X24.  Toggling a section of the outline changes the state of that
    section and of no other: it is expanded afterwards exactly when it was
    not before; and a list without repetition stays without repetition. *)
Theorem toggle_changes_one_section index prev :
  (In index (KeyConcepts.toggleSection index prev) <-> ~ In index prev)
  /\ (forall other, other <> index ->
        (In other (KeyConcepts.toggleSection index prev) <-> In other prev))
  /\ (NoDup prev -> NoDup (KeyConcepts.toggleSection index prev)).
Proof.
  unfold KeyConcepts.toggleSection.
  destruct (existsb (Z.eqb index) prev) eqn:E.
  - apply existsb_exists in E as (x & Hx & Heq). apply Z.eqb_eq in Heq. subst x.
    split; [|split].
    + split; [|tauto].
      intros Hin. apply filter_In in Hin as [_ Hin].
      rewrite Z.eqb_refl in Hin. discriminate.
    + intros other Hother. rewrite filter_In.
      split; [tauto|]. intros Hin. split; [exact Hin|].
      apply negb_true_iff, Z.eqb_neq. assumption.
    + apply NoDup_filter.
  - assert (~ In index prev) as Hnot.
    { intros Hin. assert (existsb (Z.eqb index) prev = true) as Hex
        by (apply existsb_exists; exists index; split;
            [assumption | apply Z.eqb_refl]).
      congruence. }
    split; [|split].
    + split; [tauto|]. intros _. apply in_or_app. right. left. reflexivity.
    + intros other Hother. rewrite in_app_iff. simpl. split; [|tauto].
      intros [Hin|[Hin|[]]]; [assumption | congruence].
    + intros Hnodup. apply NoDup_rev in Hnodup.
      rewrite <- (rev_involutive (prev ++ [index])), rev_app_distr.
      apply NoDup_rev. cbn [rev app]. constructor; [|exact Hnodup].
      rewrite <- in_rev. exact Hnot.
Qed.

(** * Examples of the further properties *)

(** X6 at the stream that spells "Hello", read in two pieces and in one. *)
Lemma read_boundaries_do_not_matter_witness :
  @generateStreamingResponse (simulated hello_reads offline)
    a_service (lit "Say hello") []
  = @generateStreamingResponse (simulated [hello_stream] offline)
      a_service (lit "Say hello") [].
Proof.
  apply (read_boundaries_do_not_matter
           (simulated hello_reads offline) (simulated [hello_stream] offline)
           a_service (lit "Say hello") []
           (streamed hello_reads) (streamed [hello_stream])
           hello_reads [hello_stream]); reflexivity.
Defined.

(** X2 at a stream that ends in the middle of nothing: its last line is
    the whole frame of "lo", but without line feed. *)
Lemma unfinished_line_is_dropped_witness :
  let platform := simulated [unclosed_stream] offline in
  let run := generateStreamingResponse a_service (lit "Say hello") [] in
  line_delta (DATA ++ frame_lo) = [JStr (lit "lo")]
  /\ fst run = inr JUndefined
  /\ chunks_delivered (snd run)
     = chunks_delivered [] ++ flat_map line_delta [DATA ++ frame_Hel].
Proof.
  split; [vm_compute; reflexivity|].
  apply (unfinished_line_is_dropped
           (platform := simulated [unclosed_stream] offline)
           a_service (lit "Say hello") [] (streamed [unclosed_stream])
           [unclosed_stream] [DATA ++ frame_Hel] (DATA ++ frame_lo)).
  - reflexivity.
  - reflexivity.
  - reflexivity.
  - no_line_feed.
  - vm_compute. intuition discriminate.
  - vm_compute. reflexivity.
Defined.

(** X3 at the stream that is aborted after its first read. *)
Lemma failed_read_ends_the_stream_witness :
  let platform := answering (FetchResolves aborted_stream) in
  let run := generateStreamingResponse a_service (lit "Say hello") [] in
  fst run = inl (new_Error "Request timed out. Please try again.")
  /\ chunks_delivered (snd run)
     = chunks_delivered [] ++ flat_map line_delta [DATA ++ frame_Hel; []].
Proof.
  apply (failed_read_ends_the_stream
           (platform := answering (FetchResolves aborted_stream))
           a_service (lit "Say hello") [] aborted_stream
           [slice_to 60 hello_stream] ABORTED [ReadValue (slice 60 hello_stream)]
           [DATA ++ frame_Hel; []] (slice 49 (slice_to 60 hello_stream))).
  - reflexivity.
  - reflexivity.
  - reflexivity.
  - no_line_feed.
  - vm_compute. intuition discriminate.
  - vm_compute. reflexivity.
Defined.

(** X4 at a request that the network rejects. *)
Lemma unopened_stream_delivers_nothing_witness :
  let platform :=
    answering (FetchRejects (JSError (lit "TypeError") (lit "Failed to fetch"))) in
  exists error,
    generateStreamingResponse a_service (lit "Say hello") []
    = (inl error,
       [] ++ [Sent (chat_request (config a_service) (lit "Say hello") true)]).
Proof.
  apply (unopened_stream_delivers_nothing
           (platform := answering
              (FetchRejects (JSError (lit "TypeError") (lit "Failed to fetch"))))
           a_service (lit "Say hello") []).
  intros r H. discriminate H.
Defined.


(** X7 at a document of two chunks, without network. *)
Lemma failed_chunk_fails_the_summary_witness :
  let platform := simulated [] offline in
  exists thrown,
    generateSummary a_service document_4001 []
    = (inl thrown,
       [] ++ map (fun c => Sent (summary_request a_service c))
                 (chunkText document_4001)).
Proof.
  eapply (failed_chunk_fails_the_summary (platform := simulated [] offline)
            a_service document_4001 [] 0).
  - vm_compute. reflexivity.
  - vm_compute. reflexivity.
Defined.

(** X11 at a key of the recognized shape. *)
Lemma accepted_keys_are_plain_witness :
  13 <= List.length (lit "sk-0123456789")
  /\ Forall (fun c => is_word_or_hyphen c = true /\ is_white_space c = false)
            (lit "sk-0123456789").
Proof.
  apply (accepted_keys_are_plain (lit "sk-0123456789")).
  vm_compute. reflexivity.
Defined.

(** X13 at a database with a DeepSeek key that is too short beside a
    usable OpenAI key. *)
Lemma deepseek_key_takes_precedence_witness :
  initializeService
    (Snapshot (Some {| deepseek_key := Some (lit "ds-short");
                       openai_key := Some (lit "sk-0123456789") |})) []
  = (inr {| store_apiKey := None;
            store_service := None;
            store_error := Some (lit "Invalid API key format") |},
     [] ++ [ConsoleError]).
Proof.
  assert (lit "ds-short" <> []) as Hkey by discriminate.
  apply (proj2 (deepseek_key_takes_precedence
                  (lit "ds-short") (Some (lit "sk-0123456789")) [] Hkey)).
  apply validateApiKey_not_shape. vm_compute. reflexivity.
Defined.

(** X14 at a database whose DeepSeek key is the empty string. *)
Lemma openai_key_is_the_fallback_witness :
  initializeService
    (Snapshot (Some {| deepseek_key := Some [];
                       openai_key := Some (lit "sk-0123456789") |})) []
  = (inr {| store_apiKey := Some (lit "sk-0123456789");
            store_service :=
              Some {| config := {| baseURL := lit "https://api.openai.com/v1";
                                   apiKey := lit "sk-0123456789";
                                   model := lit "gpt-3.5-turbo" |} |};
            store_error := None |}, []).
Proof.
  apply (proj1 (openai_key_is_the_fallback
                  {| deepseek_key := Some [];
                     openai_key := Some (lit "sk-0123456789") |} [] eq_refl)
               (lit "sk-0123456789") eq_refl).
  apply validateApiKey_shape. vm_compute. reflexivity.
Defined.

(** X15 at a key typed with a blank before it and a line feed after it. *)
Lemma pasted_key_is_trimmed_witness :
  validateApiKey ([32%N] ++ lit "sk-0123456789" ++ [LF]) = false
  /\ APIKeyInput_handleSubmit ([32%N] ++ lit "sk-0123456789" ++ [LF])
       initial_store []
     = (inr {| store_apiKey := Some (lit "sk-0123456789");
               store_service :=
                 Some {| config := {| baseURL := lit "https://api.openai.com/v1";
                                      apiKey := lit "sk-0123456789";
                                      model := lit "gpt-3.5-turbo" |} |};
               store_error := None |}, []).
Proof.
  split; [vm_compute; reflexivity|].
  apply (pasted_key_is_trimmed [32%N] (lit "sk-0123456789") [LF] initial_store []).
  - repeat constructor.
  - repeat constructor.
  - apply validateApiKey_shape. vm_compute. reflexivity.
Defined.

(** X16 at the chat in which "Say hello" is submitted, the answer being the
    stream that spells "Hello". *)
Lemma chat_keeps_what_was_streamed_witness :
  let platform := simulated hello_reads offline in
  fst (RealtimeChat.handleSubmit (Some a_service) chat_ready [])
  = inr {| RealtimeChat.messages :=
             [ {| RealtimeChat.role := RealtimeChat.user;
                  RealtimeChat.content := lit "Say hello";
                  RealtimeChat.isStreaming := None |};
               {| RealtimeChat.role := RealtimeChat.assistant;
                  RealtimeChat.content := lit "Hello";
                  RealtimeChat.isStreaming := Some false |} ];
           RealtimeChat.input := [];
           RealtimeChat.streaming := false;
           RealtimeChat.streamingMessage := None |}.
Proof.
  cbv zeta.
  erewrite (chat_keeps_what_was_streamed
              (platform := simulated hello_reads offline) a_service chat_ready []);
    cycle 1.
  - apply (visible_head 83%N). reflexivity.
  - reflexivity.
  - vm_compute. reflexivity.
  - vm_compute. reflexivity.
Defined.

(** X17 at the same chat, the stream being aborted after its first read. *)
Lemma chat_leaves_the_partial_answer_witness :
  let platform := answering (FetchResolves aborted_stream) in
  fst (RealtimeChat.handleSubmit (Some a_service) chat_ready [])
  = inr {| RealtimeChat.messages :=
             [ {| RealtimeChat.role := RealtimeChat.user;
                  RealtimeChat.content := lit "Say hello";
                  RealtimeChat.isStreaming := None |};
               RealtimeChat.streaming_message (lit "Hel");
               RealtimeChat.SORRY ];
           RealtimeChat.input := [];
           RealtimeChat.streaming := false;
           RealtimeChat.streamingMessage :=
             Some (RealtimeChat.streaming_message (lit "Hel")) |}.
Proof.
  cbv zeta.
  erewrite (chat_leaves_the_partial_answer
              (platform := answering (FetchResolves aborted_stream))
              a_service chat_ready []); cycle 1.
  - apply (visible_head 83%N). reflexivity.
  - reflexivity.
  - vm_compute. reflexivity.
  - vm_compute. reflexivity.
Defined.

(** X18 at an answer that holds two cards. *)
Lemma flashcards_round_trip_witness :
  let platform := simulated [] (always (Flashcards.format two_cards)) in
  Flashcards.load (Some a_service) (lit "Some text") false [] []
  = (inr two_cards,
     [] ++ [Sent (chat_request (config a_service)
                    (Flashcards.PROMPT ++ lit "Some text") false)]).
Proof.
  apply (flashcards_round_trip
           (platform := simulated [] (always (Flashcards.format two_cards)))
           a_service (lit "Some text") [] []
           (completion (JObj [(lit "content", JStr (Flashcards.format two_cards))]))
           two_cards).
  - discriminate.
  - discriminate.
  - repeat constructor; vm_compute; intuition discriminate.
  - reflexivity.
  - reflexivity.
Defined.

(** X19 at an answer without content. *)
Lemma deck_is_never_empty_witness :
  let platform := simulated [] without_content in
  exists cards t',
    Flashcards.load (Some a_service) (lit "Some text") false [] []
    = (inr cards, t')
    /\ cards <> []
    /\ Forall (fun c => trim (Flashcards.question c) = Flashcards.question c
                        /\ trim (Flashcards.answer c) = Flashcards.answer c)
              cards.
Proof.
  apply (deck_is_never_empty (platform := simulated [] without_content)
           a_service (lit "Some text") [] []).
  discriminate.
Defined.

(** X20 at the last of five cards. *)
Lemma card_navigation_cycles_witness :
  (0 <= Flashcards.goToNextCard 5 4 < 5)%Z
  /\ (0 <= Flashcards.goToPreviousCard 5 4 < 5)%Z
  /\ (4 = 5 - 1 -> Flashcards.goToNextCard 5 4 = 0)%Z
  /\ (4 = 0 -> Flashcards.goToPreviousCard 5 4 = 5 - 1)%Z
  /\ Flashcards.goToPreviousCard 5 (Flashcards.goToNextCard 5 4) = 4%Z
  /\ Flashcards.goToNextCard 5 (Flashcards.goToPreviousCard 5 4) = 4%Z.
Proof.
  apply (card_navigation_cycles 5 4). lia.
Defined.

(** X21 at a quiz of two questions. *)
Lemma quiz_stays_on_a_question_witness :
  exists st',
    Quiz.run two_questions
      [Quiz.Next; Quiz.Next; Quiz.Answer 1; Quiz.Previous; Quiz.Previous;
       Quiz.Reset] quiz_start
    = Some st'
    /\ Quiz.currentQuestion st' < List.length two_questions.
Proof.
  apply (quiz_stays_on_a_question two_questions
           [Quiz.Next; Quiz.Next; Quiz.Answer 1; Quiz.Previous; Quiz.Previous;
            Quiz.Reset] quiz_start).
  simpl. lia.
Defined.

(** X22 at the first question, answered right and then wrong. *)
Lemma answer_counts_once_witness :
  let answered :=
    {| Quiz.currentQuestion := 0;
       Quiz.selectedAnswer := Some 1%Z;
       Quiz.isAnswered := true;
       Quiz.score := 1 |} in
  Quiz.handleAnswer two_questions 0 answered = Some answered
  /\ (Quiz.score quiz_start <= Quiz.score answered <= Quiz.score quiz_start + 1)%Z.
Proof.
  apply (answer_counts_once two_questions 1 0 quiz_start). reflexivity.
Defined.

(** X23 at the first of two questions: one question gives two points. *)
Lemma returning_scores_a_question_again_witness :
  Quiz.run two_questions
    [Quiz.Answer 1; Quiz.Next; Quiz.Previous; Quiz.Answer 1] quiz_start
  = Some {| Quiz.currentQuestion := 0;
            Quiz.selectedAnswer := Some 1%Z;
            Quiz.isAnswered := true;
            Quiz.score := 2 |}.
Proof.
  apply (returning_scores_a_question_again two_questions quiz_start
           {| Quiz.correctAnswer := 1 |}).
  - simpl. lia.
  - reflexivity.
  - reflexivity.
Defined.

(** X10 at a document of two chunks without network, where the call
    throws after the requests of both chunks, and at a document of one
    chunk whose request is answered, where the combining request follows
    although there is nothing to combine. *)
Lemma key_concepts_always_combine_witness :
  (exists thrown,
     @generateKeyConcepts (simulated [] offline) a_service document_4001 []
     = (inl thrown,
        [Sent (chat_request (config a_service)
                 (CONCEPTS_PROMPT ++ slice_to 4000 document_4001) false);
         Sent (chat_request (config a_service)
                 (CONCEPTS_PROMPT ++ slice 4000 document_4001) false)]))
  /\ snd (@generateKeyConcepts (simulated [] (always summary_50))
            a_service (lit "One chunk") [])
     = [Sent (chat_request (config a_service)
                (CONCEPTS_PROMPT ++ lit "One chunk") false);
        Sent (chat_request (config a_service)
                (COMBINE_PROMPT ++ summary_50) false)].
Proof.
  split.
  - destruct (key_concepts_always_combine (platform := simulated [] offline)
                a_service document_4001 []) as (_ & Hfails & _).
    destruct (Hfails 1 (slice 4000 document_4001)
                (new_Error "API error: Network Error"))
      as (thrown & _ & _ & Hthrown & _).
    + vm_compute. reflexivity.
    + vm_compute. reflexivity.
    + exists thrown. rewrite Hthrown. vm_compute. reflexivity.
  - destruct (key_concepts_always_combine
                (platform := simulated [] (always summary_50))
                a_service (lit "One chunk") []) as (_ & _ & Hcombine).
    rewrite (Hcombine [JStr summary_50]); [|vm_compute; reflexivity].
    vm_compute. reflexivity.
Defined.
